(** * OTLP log viewer: the flattening pipeline and the histogram buckets

    A shallow embedding of [src/services/logService.ts] ([fetchLogs]),
    [src/types/otlp.ts] ([extractAnyValue], [extractStringValue]) and
    [src/components/LogHistogram.tsx] ([histogramData]), followed by the
    properties of the specification that concern them.  The specification
    calls [fetchLogs], from the response data on, [normalize], and
    [histogramData] [buildHistogram].

    Conventions of the embedding.
    - An optional field ([x?: T], or a field that may be [null]) is an
      [option]; [None] stands for both [undefined] and [null], which the
      source never tells apart.
    - A JavaScript number is a [number]: a rational, [NaN], or one of the
      two infinities.  Arithmetic on finite values is exact (IEEE rounding
      and the sign of zero are not modelled); the special values are kept
      because the control flow of [histogramData] depends on them
      ([0 / 0] is [NaN], and every comparison with [NaN] is false).
    - A [Record<string, AttributeValue>] is a [gmap string AttributeValue].
    - An exception is the [Throw] case of [result]. *)

From Stdlib Require Import ZArith QArith Qround Lqa.
From Stdlib Require Import Ascii DecimalString DecimalPos.
From Stdlib.Strings Require Byte.
From stdpp Require Import base option list sorting gmap strings.

Local Open Scope Z_scope.

(** ** JavaScript numbers *)

Module JS.

Inductive number : Type :=
  | Finite (q : Q)
  | NaN
  | PInf
  | NInf.

Definition of_Z (z : Z) : number := Finite (inject_Z z).

(** Sign of a number that is not [NaN]. *)
Definition sgn (a : number) : Z :=
  match a with
  | Finite q => Z.sgn (Qnum q)
  | PInf => 1
  | NInf => -1
  | NaN => 0
  end.

Definition inf_of_sign (s : Z) : number :=
  match s with
  | Z0 => NaN
  | Zpos _ => PInf
  | Zneg _ => NInf
  end.

Definition opp (a : number) : number :=
  match a with
  | Finite q => Finite (- q)
  | NaN => NaN
  | PInf => NInf
  | NInf => PInf
  end.

Definition add (a b : number) : number :=
  match a, b with
  | NaN, _ | _, NaN => NaN
  | Finite x, Finite y => Finite (x + y)
  | PInf, NInf | NInf, PInf => NaN
  | PInf, _ | _, PInf => PInf
  | NInf, _ | _, NInf => NInf
  end.

(** [a - b] *)
Definition sub (a b : number) : number := add a (opp b).

(** [a * b] *)
Definition mul (a b : number) : number :=
  match a, b with
  | NaN, _ | _, NaN => NaN
  | Finite x, Finite y => Finite (x * y)
  | _, _ => inf_of_sign (sgn a * sgn b)
  end.

(** [a / b]; a zero divisor is the positive zero, the only zero that
    [histogramData] can divide by. *)
Definition div (a b : number) : number :=
  match a, b with
  | NaN, _ | _, NaN => NaN
  | Finite x, Finite y =>
      if Qeq_bool y 0 then inf_of_sign (sgn a) else Finite (x / y)
  | Finite _, _ => Finite 0
  | _, Finite y => inf_of_sign (sgn a * (if Qeq_bool y 0 then 1 else sgn b))
  | _, _ => NaN
  end.

(** [a < b] *)
Definition lt (a b : number) : bool :=
  match a, b with
  | NaN, _ | _, NaN => false
  | Finite x, Finite y => negb (Qle_bool y x)
  | NInf, NInf | PInf, _ | _, NInf => false
  | _, _ => true
  end.

(** [a <= b] *)
Definition le (a b : number) : bool :=
  match a, b with
  | NaN, _ | _, NaN => false
  | Finite x, Finite y => Qle_bool x y
  | NInf, _ | _, PInf => true
  | _, _ => false
  end.

(** [a > b] and [a >= b] *)
Definition gt (a b : number) : bool := lt b a.
Definition ge (a b : number) : bool := le b a.

(** [a === b] on numbers *)
Definition eq (a b : number) : bool :=
  match a, b with
  | Finite x, Finite y => Qeq_bool x y
  | PInf, PInf | NInf, NInf => true
  | _, _ => false
  end.

(** [Math.floor] and [Math.ceil] *)
Definition floor (a : number) : number :=
  match a with
  | Finite q => of_Z (Qfloor q)
  | _ => a
  end.

Definition ceil (a : number) : number :=
  match a with
  | Finite q => of_Z (Qceiling q)
  | _ => a
  end.

(** [Math.max(a, b)] and [Math.min(a, b)]: [NaN] if either is [NaN]. *)
Definition max (a b : number) : number :=
  match a, b with
  | NaN, _ | _, NaN => NaN
  | _, _ => if lt a b then b else a
  end.

Definition min (a b : number) : number :=
  match a, b with
  | NaN, _ | _, NaN => NaN
  | _, _ => if lt b a then b else a
  end.

(** [ToBoolean] of a number: [0] and [NaN] are falsy. *)
Definition truthy (a : number) : bool :=
  match a with
  | Finite q => negb (Qeq_bool q 0)
  | NaN => false
  | _ => true
  end.

(** [ToBoolean] of a string: only the empty string is falsy. *)
Definition truthy_string (s : string) : bool :=
  match s with
  | EmptyString => false
  | String _ _ => true
  end.

(** [Number(s)] for a string, restricted to the grammar of a fixed64
    timestamp: a run of decimal digits is its value and the empty string is
    [0].  Every other string is taken to [NaN]; JavaScript also reads signs,
    fractions, exponents, radix prefixes and surrounding blanks, which no
    statement below relies on. *)
Definition StringToNumber (s : string) : number :=
  match NilEmpty.uint_of_string s with
  | Some d => of_Z (Z.of_uint d)
  | None => NaN
  end.

(** [n.toString()] for an integral number below [1e21] (beyond [2^53] a JSON
    number reaches the code already rounded; [n] is then that value). *)
Definition Z_toString (n : Z) : string :=
  NilZero.string_of_int (Z.to_int n).

(** [ToLength]: the [length] that [Array.from({ length: n })] uses, between
    [0] and [2^53 - 1]. *)
Definition ToLength (a : number) : nat :=
  match a with
  | Finite q => Z.to_nat (Z.min (Qfloor q) (2 ^ 53 - 1))
  | PInf => Z.to_nat (2 ^ 53 - 1)
  | _ => 0%nat
  end.

End JS.

Global Arguments JS.add : simpl never.
Global Arguments JS.sub : simpl never.
Global Arguments JS.mul : simpl never.
Global Arguments JS.div : simpl never.
Global Arguments JS.lt : simpl never.
Global Arguments JS.le : simpl never.
Global Arguments JS.gt : simpl never.
Global Arguments JS.ge : simpl never.
Global Arguments JS.eq : simpl never.
Global Arguments JS.min : simpl never.
Global Arguments JS.max : simpl never.
Global Arguments JS.floor : simpl never.
Global Arguments JS.ceil : simpl never.
Global Arguments JS.of_Z : simpl never.

(** ** Exceptions *)

Inductive js_error : Type :=
  | TypeError.

Inductive result (A : Type) : Type :=
  | Ok (a : A)
  | Throw (e : js_error).
Arguments Ok {A} a.
Arguments Throw {A} e.

Definition bind {A B} (r : result A) (k : A -> result B) : result B :=
  match r with
  | Ok a => k a
  | Throw e => Throw e
  end.

Notation "x <-! r ;; k" := (bind r (fun x => k))
  (at level 100, r at next level, right associativity).

(** [l.forEach(x => body)], where [body] updates the state [s] and may
    throw: the first exception ends the loop. *)
Fixpoint forEach {A S} (body : S -> A -> result S) (l : list A) (s : S)
  : result S :=
  match l with
  | [] => Ok s
  | x :: l' => s' <-! body s x ;; forEach body l' s'
  end.

(** ** The OTLP types ([src/types/otlp.ts]) *)

(** [AttributeValue = string | number | boolean | null] *)
Inductive AttributeValue : Type :=
  | AVString (s : string)
  | AVNumber (n : JS.number)
  | AVBool (b : bool)
  | AVNull.

(** The fields of [IAnyValue] that the source reads.  The remaining ones
    ([arrayValue], [kvlistValue], [bytesValue]) are never inspected. *)
Record IAnyValue : Type := {
  stringValue : option string;
  boolValue : option bool;
  intValue : option JS.number;
  doubleValue : option JS.number;
}.

Record IKeyValue : Type := {
  key : option string;
  value : option IAnyValue;
}.

(** [Fixed64 = LongBits | string | number] *)
Inductive Fixed64 : Type :=
  | F64String (s : string)
  | F64Number (n : Z)
  | F64LongBits (low high : Z).

(** [string | Uint8Array] *)
Inductive IdValue : Type :=
  | IdString (s : string)
  | IdBytes (bs : list Byte.byte).

Record ILogRecord : Type := {
  lr_timeUnixNano : option Fixed64;
  lr_severityNumber : option JS.number;
  lr_severityText : option string;
  lr_body : option IAnyValue;
  lr_attributes : option (list IKeyValue);
  lr_droppedAttributesCount : option JS.number;
  lr_flags : option JS.number;
  lr_traceId : option IdValue;
  lr_spanId : option IdValue;
}.

Record IInstrumentationScope : Type := {
  scope_name : option string;
  scope_version : option string;
  scope_attributes : option (list IKeyValue);
}.

Record IScopeLogs : Type := {
  scope : option IInstrumentationScope;
  logRecords : option (list ILogRecord);
}.

Record IResource : Type := {
  resource_attributes : option (list IKeyValue);
}.

Record IResourceLogs : Type := {
  resource : option IResource;
  scopeLogs : option (list IScopeLogs);
}.

Record IExportLogsServiceRequest : Type := {
  resourceLogs : option (list IResourceLogs);
}.

(** The runtime value of [LogEntry.timeUnixNano]: [string | number]. *)
Inductive TimeValue : Type :=
  | TString (s : string)
  | TNumber (n : JS.number).

Record LogEntry : Type := {
  timeUnixNano : option TimeValue;
  severityNumber : option JS.number;
  severityText : option string;
  body : string;
  attributes : gmap string AttributeValue;
  droppedAttributesCount : option JS.number;
  traceId : option string;
  spanId : option string;
  flags : option JS.number;
  resourceAttributes : gmap string AttributeValue;
  scopeAttributes : gmap string AttributeValue;
}.

(** [extractAnyValue(value?: IAnyValue)] *)
Definition extractAnyValue (value : option IAnyValue) : AttributeValue :=
  match value with
  | None => AVNull
  | Some v =>
      match stringValue v with
      | Some s => AVString s
      | None =>
          match intValue v with
          | Some n => AVNumber n
          | None =>
              match doubleValue v with
              | Some d => AVNumber d
              | None =>
                  match boolValue v with
                  | Some b => AVBool b
                  | None => AVNull
                  end
              end
          end
      end
  end.

(** [extractStringValue(value?: IAnyValue)] *)
Definition extractStringValue (value : option IAnyValue) : string :=
  match value with
  | None => ""
  | Some v =>
      match stringValue v with
      | None => ""
      | Some s => s
      end
  end.

(** ** The flattening pipeline ([src/services/logService.ts]) *)

(** [obj[k] = v] on a plain object.  The key ["__proto__"] reaches the
    accessor of [Object.prototype] instead of creating a property, and an
    [AttributeValue] is never an object, so that store leaves the own
    properties as they were. *)
Definition setProperty (obj : gmap string AttributeValue) (k : string)
    (v : AttributeValue) : gmap string AttributeValue :=
  if String.eqb k "__proto__" then obj else <[k := v]> obj.

(** The body of the three [attributes.forEach(attr => ...)] loops:
    [if (attr.key) obj[attr.key] = extractAnyValue(attr.value)]. *)
Definition storeAttribute (obj : gmap string AttributeValue)
    (attr : IKeyValue) : gmap string AttributeValue :=
  match key attr with
  | Some k =>
      if JS.truthy_string k
      then setProperty obj k (extractAnyValue (value attr))
      else obj
  | None => obj
  end.

(** [if (attrs && Array.isArray(attrs)) attrs.forEach(...)], started from
    the object [obj]. *)
Definition storeAttributes (attrs : option (list IKeyValue))
    (obj : gmap string AttributeValue) : gmap string AttributeValue :=
  match attrs with
  | Some l => foldl storeAttribute obj l
  | None => obj
  end.

(** [resourceLog.resource?.attributes] and [scopeLog.scope?.attributes] *)
Definition resourceAttributesOf (resourceLog : IResourceLogs)
  : gmap string AttributeValue :=
  storeAttributes (resource resourceLog ≫= resource_attributes) ∅.

(** [if (scopeLog.scope?.name) scopeAttributes['scope.name'] = ...], and the
    same for the version. *)
Definition storeScopeField (k : string) (field : option string)
    (obj : gmap string AttributeValue) : gmap string AttributeValue :=
  match field with
  | Some s => if JS.truthy_string s then setProperty obj k (AVString s) else obj
  | None => obj
  end.

Definition scopeAttributesOf (scopeLog : IScopeLogs)
  : gmap string AttributeValue :=
  let scopeAttributes :=
    storeAttributes (scope scopeLog ≫= scope_attributes) ∅ in
  let scopeAttributes :=
    storeScopeField "scope.name" (scope scopeLog ≫= scope_name)
      scopeAttributes in
  storeScopeField "scope.version" (scope scopeLog ≫= scope_version)
    scopeAttributes.

(** [Buffer.from(bytes).toString('hex')] *)
Definition hex_digit (n : N) : ascii :=
  match n with
  | 0%N => "0" | 1%N => "1" | 2%N => "2" | 3%N => "3"
  | 4%N => "4" | 5%N => "5" | 6%N => "6" | 7%N => "7"
  | 8%N => "8" | 9%N => "9" | 10%N => "a" | 11%N => "b"
  | 12%N => "c" | 13%N => "d" | 14%N => "e" | _ => "f"
  end%char.

Fixpoint toHex (bs : list Byte.byte) : string :=
  match bs with
  | [] => ""
  | b :: bs' =>
      let n := Byte.to_N b in
      String (hex_digit (n / 16)) (String (hex_digit (n mod 16)) (toHex bs'))
  end.

(** [typeof id === 'string' ? id : id ? Buffer.from(id).toString('hex')
    : undefined] *)
Definition convertId (id : option IdValue) : option string :=
  match id with
  | Some (IdString s) => Some s
  | Some (IdBytes bs) => Some (toHex bs)
  | None => None
  end.

(** [t.toString()] for a present [Fixed64]. *)
Definition Fixed64_toString (t : Fixed64) : string :=
  match t with
  | F64String s => s
  | F64Number n => JS.Z_toString n
  | F64LongBits _ _ => "[object Object]"
  end.

(** The entry built from a log record whose [timeUnixNano] is [t], with its
    own attributes stored. *)
Definition makeLogEntry (resourceAttributes scopeAttributes :
    gmap string AttributeValue) (logRecord : ILogRecord) (t : Fixed64)
  : LogEntry :=
  {| timeUnixNano := Some (TString (Fixed64_toString t));
     severityNumber := lr_severityNumber logRecord;
     severityText := lr_severityText logRecord;
     body := extractStringValue (lr_body logRecord);
     attributes := storeAttributes (lr_attributes logRecord) ∅;
     droppedAttributesCount := lr_droppedAttributesCount logRecord;
     traceId := convertId (lr_traceId logRecord);
     spanId := convertId (lr_spanId logRecord);
     flags := lr_flags logRecord;
     resourceAttributes := resourceAttributes;
     scopeAttributes := scopeAttributes |}.

(** The body of [scopeLog.logRecords.forEach(logRecord => ...)].  The first
    property of the object literal is [logRecord.timeUnixNano.toString()]:
    a method call on [undefined] throws a [TypeError]. *)
Definition processLogRecord (resourceAttributes scopeAttributes :
    gmap string AttributeValue) (logRecords : list LogEntry)
    (logRecord : ILogRecord) : result (list LogEntry) :=
  match lr_timeUnixNano logRecord with
  | None => Throw TypeError
  | Some t =>
      Ok (logRecords ++
          [makeLogEntry resourceAttributes scopeAttributes logRecord t])
  end.

(** [if (xs && Array.isArray(xs)) xs.forEach(body)] *)
Definition forEachIfArray {A S} (body : S -> A -> result S)
    (xs : option (list A)) (s : S) : result S :=
  match xs with
  | Some l => forEach body l s
  | None => Ok s
  end.

Definition processScopeLog (resourceAttributes : gmap string AttributeValue)
    (acc : list LogEntry) (scopeLog : IScopeLogs) : result (list LogEntry) :=
  let scopeAttributes := scopeAttributesOf scopeLog in
  forEachIfArray (processLogRecord resourceAttributes scopeAttributes)
    (logRecords scopeLog) acc.

Definition processResourceLog (acc : list LogEntry)
    (resourceLog : IResourceLogs) : result (list LogEntry) :=
  let resourceAttributes := resourceAttributesOf resourceLog in
  forEachIfArray (processScopeLog resourceAttributes)
    (scopeLogs resourceLog) acc.

(** The array [logRecords] as it stands before the final sort. *)
Definition collectLogs (data : IExportLogsServiceRequest)
  : result (list LogEntry) :=
  forEachIfArray processResourceLog (resourceLogs data) [].

(** [Number(v)] on the value of a [timeUnixNano] field. *)
Definition Number (v : TimeValue) : JS.number :=
  match v with
  | TString s => JS.StringToNumber s
  | TNumber n => n
  end.

(** [ToBoolean] of a [timeUnixNano] field. *)
Definition truthyTime (v : option TimeValue) : bool :=
  match v with
  | None => false
  | Some (TString s) => JS.truthy_string s
  | Some (TNumber n) => JS.truthy n
  end.

(** [a.timeUnixNano ? Number(a.timeUnixNano) : 0] *)
Definition timeOf (a : LogEntry) : JS.number :=
  match timeUnixNano a with
  | Some v => if truthyTime (Some v) then Number v else JS.of_Z 0
  | None => JS.of_Z 0
  end.

(** [Array.prototype.sort(comparefn)].  ECMAScript requires the sort to be
    stable, places [a] after [b] only when [comparefn(a, b) > 0], and reads
    a [NaN] result as [+0].  For a consistent comparator this fixes the
    result, which right-to-left insertion computes; for an inconsistent one
    (here: a time that is [NaN]) the order is implementation-defined, and
    the statements about order below assume numeric times. *)
Fixpoint sortInsert {A} (comparefn : A -> A -> JS.number) (a : A)
    (l : list A) : list A :=
  match l with
  | [] => [a]
  | b :: l' =>
      if JS.gt (comparefn a b) (JS.of_Z 0)
      then b :: sortInsert comparefn a l'
      else a :: b :: l'
  end.

Fixpoint Array_sort {A} (comparefn : A -> A -> JS.number) (l : list A)
  : list A :=
  match l with
  | [] => []
  | a :: l' => sortInsert comparefn a (Array_sort comparefn l')
  end.

(** [(a, b) => timeB - timeA]: newest first. *)
Definition newestFirst (a b : LogEntry) : JS.number :=
  JS.sub (timeOf b) (timeOf a).

(** [fetchLogs], from the response data on: the HTTP request that delivers
    [data] is outside the embedding.  The [catch] block logs and rethrows. *)
Definition fetchLogs (data : IExportLogsServiceRequest)
  : result (list LogEntry) :=
  logRecords <-! collectLogs data ;;
  Ok (Array_sort newestFirst logRecords).

(** ** The histogram ([src/components/LogHistogram.tsx]) *)

(** An element of the local array [buckets]: [{ time: number; count: number }]. *)
Record Bucket : Type := {
  bucket_time : JS.number;
  bucket_count : nat;
}.

(** [HistogramBucket]: [{ time: string; count: number }]. *)
Record HistogramBucket : Type := {
  time : string;
  count : nat;
}.

(** [(a, b) => timeA - timeB]: oldest first. *)
Definition oldestFirst (a b : LogEntry) : JS.number :=
  JS.sub (timeOf a) (timeOf b).

(** [Math.min(Math.max(10, Math.ceil(timeRangeSeconds / 5)), 20)] *)
Definition numBucketsOf (timeRangeNanos : JS.number) : JS.number :=
  let timeRangeSeconds := JS.div timeRangeNanos (JS.of_Z 1000000000) in
  JS.min (JS.max (JS.of_Z 10) (JS.ceil (JS.div timeRangeSeconds (JS.of_Z 5))))
    (JS.of_Z 20).

(** [Array.from({ length: numBuckets }, (_, i) =>
    ({ time: minTime + i * bucketSizeNanos, count: 0 }))] *)
Definition initBuckets (minTime bucketSizeNanos numBuckets : JS.number)
  : list Bucket :=
  map (fun i : nat =>
         {| bucket_time :=
              JS.add minTime (JS.mul (JS.of_Z (Z.of_nat i)) bucketSizeNanos);
            bucket_count := 0 |})
      (seq 0 (JS.ToLength numBuckets)).

(** [Math.min(Math.floor((time - minTime) / bucketSizeNanos), numBuckets - 1)] *)
Definition bucketIndexOf (minTime bucketSizeNanos numBuckets time : JS.number)
  : JS.number :=
  JS.min (JS.floor (JS.div (JS.sub time minTime) bucketSizeNanos))
    (JS.sub numBuckets (JS.of_Z 1)).

(** [buckets[bucketIndex].count++] *)
Definition incrementCount (b : Bucket) : Bucket :=
  {| bucket_time := bucket_time b; bucket_count := S (bucket_count b) |}.

(** The body of [logs.forEach(log => ...)].  A [bucketIndex] that passes the
    range test is finite, and it is an integer (a floor, or
    [numBuckets - 1]; see [bucketIndexOf_integral]), so it addresses an
    element of [buckets]. *)
Definition countLog (minTime bucketSizeNanos numBuckets : JS.number)
    (buckets : list Bucket) (log : LogEntry) : list Bucket :=
  match timeUnixNano log with
  | None => buckets
  | Some v =>
      if negb (truthyTime (Some v)) then buckets
      else
        let time := Number v in
        let bucketIndex :=
          bucketIndexOf minTime bucketSizeNanos numBuckets time in
        if JS.ge bucketIndex (JS.of_Z 0)
           && JS.lt bucketIndex (JS.of_Z (Z.of_nat (length buckets)))
        then
          match bucketIndex with
          | JS.Finite q => alter incrementCount (Z.to_nat (Qfloor q)) buckets
          | _ => buckets
          end
        else buckets
  end.

(** [minTime] and [maxTime]: the times of [sortedLogs[0]] and of
    [sortedLogs[sortedLogs.length - 1]], each read as
    [x.timeUnixNano ? Number(x.timeUnixNano) : 0].  They are [None] only for
    an empty [logs], where [histogramData] has already returned. *)
Definition minTimeOf (logs : list LogEntry) : option JS.number :=
  timeOf <$> head (Array_sort oldestFirst logs).

Definition maxTimeOf (logs : list LogEntry) : option JS.number :=
  timeOf <$> last (Array_sort oldestFirst logs).

(** The array [buckets] after the counting loop, or the empty array where
    [histogramData] returns early. *)
Definition histogramBuckets (logs : list LogEntry) : list Bucket :=
  match logs with
  | [] => []
  | _ :: _ =>
      match minTimeOf logs, maxTimeOf logs with
      | Some minTime, Some maxTime =>
          if JS.eq minTime (JS.of_Z 0) || JS.eq maxTime (JS.of_Z 0) then []
          else
            let timeRangeNanos := JS.sub maxTime minTime in
            let numBuckets := numBucketsOf timeRangeNanos in
            let bucketSizeNanos := JS.div timeRangeNanos numBuckets in
            foldl (countLog minTime bucketSizeNanos numBuckets)
              (initBuckets minTime bucketSizeNanos numBuckets) logs
      | _, _ => []
      end
  end.

(** [histogramData].  [formatTimestamp] renders a bucket's start time with
    [date-fns] in the local time zone; it is a parameter here, and a total
    one: [format] returns for every time in the range of [Date], which
    holds all fixed64 nanosecond times. *)
Definition histogramData (formatTimestamp : JS.number -> string)
    (logs : list LogEntry) : list HistogramBucket :=
  map (fun bucket =>
         {| time := formatTimestamp (bucket_time bucket);
            count := bucket_count bucket |})
      (histogramBuckets logs).

(** ** Sample inputs *)
Definition entryAt (t : option TimeValue) : LogEntry :=
  {| timeUnixNano := t; severityNumber := None; severityText := None;
     body := ""; attributes := ∅; droppedAttributesCount := None;
     traceId := None; spanId := None; flags := None;
     resourceAttributes := ∅; scopeAttributes := ∅ |}.

Definition entryAtZ (t : Z) : LogEntry :=
  entryAt (Some (TString (JS.Z_toString t))).


Definition noLabel (_ : JS.number) : string := "".


Definition recordAt (t : option Fixed64) (text : option string)
    (attrs : option (list IKeyValue)) : ILogRecord :=
  {| lr_timeUnixNano := t; lr_severityNumber := None;
     lr_severityText := None;
     lr_body :=
       (fun s => {| stringValue := Some s; boolValue := None;
                    intValue := None; doubleValue := None |}) <$> text;
     lr_attributes := attrs; lr_droppedAttributesCount := None;
     lr_flags := None; lr_traceId := None; lr_spanId := None |}.

Definition requestOf (sc : option IInstrumentationScope)
    (records : list ILogRecord) : IExportLogsServiceRequest :=
  {| resourceLogs :=
       Some [ {| resource := None;
                 scopeLogs :=
                   Some [ {| scope := sc; logRecords := Some records |} ] |} ]
  |}.

(** Scenario A of the specification. *)
Definition scenarioA : IExportLogsServiceRequest :=
  requestOf
    (Some {| scope_name := Some "svc"; scope_version := Some "1.0";
             scope_attributes := None |})
    [ recordAt (Some (F64String "1000000000")) (Some "hello") None;
      recordAt (Some (F64String "2000000000")) (Some "world") None ].

(** [{}] *)
Definition emptyRequest : IExportLogsServiceRequest :=
  {| resourceLogs := None |}.

(** One log record, [{ body: { stringValue: "boot" } }], with no
    [timeUnixNano]. *)
Definition requestWithoutTime : IExportLogsServiceRequest :=
  requestOf None [ recordAt None (Some "boot") None ].



(** Attribute pairs without a key, and with an empty key, at the three
    levels. *)
Definition stringAttribute (k : option string) (s : string) : IKeyValue :=
  {| key := k;
     value := Some {| stringValue := Some s; boolValue := None;
                      intValue := None; doubleValue := None |} |}.

Definition requestWithKeylessAttributes : IExportLogsServiceRequest :=
  {| resourceLogs :=
       Some [ {| resource :=
                   Some {| resource_attributes :=
                             Some [ stringAttribute None "lost";
                                    stringAttribute (Some "service.name") "api";
                                    stringAttribute (Some "") "lost" ] |};
                 scopeLogs :=
                   Some [ {| scope :=
                               Some {| scope_name := Some "svc";
                                       scope_version := None;
                                       scope_attributes :=
                                         Some [ stringAttribute (Some "") "lost" ] |};
                             logRecords :=
                               Some [ recordAt (Some (F64Number 1000000000))
                                        (Some "hello")
                                        (Some [ stringAttribute None "lost";
                                                stringAttribute (Some "k") "v" ])
                                    ] |} ] |} ] |}.

(** ** Notions of the specification *)

(** "The first populated variant in the fixed priority order string, int,
    double, bool". *)
Definition variantsByPriority (v : IAnyValue) : list (option AttributeValue) :=
  [ AVString <$> stringValue v; AVNumber <$> intValue v;
    AVNumber <$> doubleValue v; AVBool <$> boolValue v ].

Definition firstPopulated {A} (variants : list (option A)) : option A :=
  head (omap id variants).

(** The log records of a payload with the resource and the scope that own
    them, in source order. *)
Definition source : Type := IResourceLogs * IScopeLogs * ILogRecord.

Definition sourcesOf (data : IExportLogsServiceRequest) : list source :=
  default [] (resourceLogs data) ≫= fun r =>
  default [] (scopeLogs r) ≫= fun s =>
  (fun lr => (r, s, lr)) <$> default [] (logRecords s).

(** "The total number of LogRecord objects summed over all ResourceLogs and
    all ScopeLogs within them". *)
Definition countLogRecords (data : IExportLogsServiceRequest) : nat :=
  sum_list (default [] (resourceLogs data) ≫= fun r =>
            (fun s => length (default [] (logRecords s)))
              <$> default [] (scopeLogs r)).

(** The entry that [fetchLogs] builds for a log record, if the record has a
    [timeUnixNano]. *)
Definition entryOf (src : source) : option LogEntry :=
  let '(r, s, lr) := src in
  makeLogEntry (resourceAttributesOf r) (scopeAttributesOf s) lr
    <$> lr_timeUnixNano lr.

(** Every log record of the payload has a [timeUnixNano]. *)
Definition timesPresent (data : IExportLogsServiceRequest) : Prop :=
  Forall (fun src : source => is_Some (lr_timeUnixNano src.2)) (sourcesOf data).



(** [Number(e.timeUnixNano)], the "numeric parse" of an entry's time. *)
Definition parsedTime (e : LogEntry) : JS.number :=
  from_option Number JS.NaN (timeUnixNano e).










(** The time of an entry is a number, and not a negative one. *)
Definition numericEntry (e : LogEntry) : Prop :=
  exists q, timeOf e = JS.Finite q /\ (0 <= q)%Q.

(** An attribute pair that has a key: a non-empty string. *)
Definition hasKey (attr : IKeyValue) : bool :=
  match key attr with
  | Some k => JS.truthy_string k
  | None => false
  end.

(** The payload without its keyless attribute pairs. *)
Definition keyed (attrs : option (list IKeyValue)) : option (list IKeyValue) :=
  filter (fun attr => hasKey attr = true) <$> attrs.

Definition keyedRecord (lr : ILogRecord) : ILogRecord :=
  {| lr_timeUnixNano := lr_timeUnixNano lr;
     lr_severityNumber := lr_severityNumber lr;
     lr_severityText := lr_severityText lr;
     lr_body := lr_body lr;
     lr_attributes := keyed (lr_attributes lr);
     lr_droppedAttributesCount := lr_droppedAttributesCount lr;
     lr_flags := lr_flags lr;
     lr_traceId := lr_traceId lr;
     lr_spanId := lr_spanId lr |}.

Definition keyedScopeLog (s : IScopeLogs) : IScopeLogs :=
  {| scope :=
       (fun sc => {| scope_name := scope_name sc;
                     scope_version := scope_version sc;
                     scope_attributes := keyed (scope_attributes sc) |})
         <$> scope s;
     logRecords := map keyedRecord <$> logRecords s |}.

Definition keyedResourceLog (r : IResourceLogs) : IResourceLogs :=
  {| resource :=
       (fun res => {| resource_attributes := keyed (resource_attributes res) |})
         <$> resource r;
     scopeLogs := map keyedScopeLog <$> scopeLogs r |}.

Definition keyedRequest (data : IExportLogsServiceRequest)
  : IExportLogsServiceRequest :=
  {| resourceLogs := map keyedResourceLog <$> resourceLogs data |}.

Definition keyedSource (src : source) : source :=
  (keyedResourceLog src.1.1, keyedScopeLog src.1.2, keyedRecord src.2).

(** Every key of the three attribute maps of an entry is non-empty. *)
Definition keysNonEmpty (e : LogEntry) : Prop :=
  forall k,
    is_Some (attributes e !! k) \/ is_Some (resourceAttributes e !! k)
      \/ is_Some (scopeAttributes e !! k) ->
    k <> "".

(** [clamp(x, lower, upper)] *)
Definition clamp (x lower upper : Z) : Z := Z.min (Z.max lower x) upper.


(** An entry "with a defined, non-zero [timeUnixNano]": the field is there
    and reads as a number other than [0]. *)
Definition nonZeroTime (e : LogEntry) : bool :=
  from_option (fun v => JS.truthy (Number v)) false (timeUnixNano e).


(** The bucket that the specification assigns to the time [q], for the
    smallest time [mn], the largest time [mx] and [nb] buckets:
    [floor((q - mn) / bucketWidth)] clamped to [nb - 1]. *)
Definition bucketOf (mn mx : Q) (nb : Z) (q : Q) : nat :=
  Z.to_nat (Z.min (Qfloor ((q - mn) / ((mx - mn) / inject_Z nb))) (nb - 1)).

(** The counts of [n] buckets after one increment per index of [idxs]. *)
Definition tally (n : nat) (idxs : list nat) : list nat :=
  foldl (fun counts i => alter S i counts) (replicate n 0%nat) idxs.

(** The time of an entry as a rational, [0] if it is not finite. *)
Definition timeQ (e : LogEntry) : Q :=
  match timeOf e with
  | JS.Finite q => q
  | _ => 0%Q
  end.

(** ** Severity ([src/services/logService.ts]) *)

(** [switch (n) { case k: return text; ... default: return fallback; }]:
    the first case that is strictly equal to [n]. *)
Fixpoint switch (n : JS.number) (cases : list (Z * string))
    (fallback : string) : string :=
  match cases with
  | [] => fallback
  | (k, text) :: cases' =>
      if JS.eq n (JS.of_Z k) then text else switch n cases' fallback
  end.

Definition severityCases : list (Z * string) :=
  [ (1, "TRACE"); (2, "TRACE2"); (3, "TRACE3"); (4, "TRACE4");
    (5, "DEBUG"); (6, "DEBUG2"); (7, "DEBUG3"); (8, "DEBUG4");
    (9, "INFO"); (10, "INFO2"); (11, "INFO3"); (12, "INFO4");
    (13, "WARN"); (14, "WARN2"); (15, "WARN3"); (16, "WARN4");
    (17, "ERROR"); (18, "ERROR2"); (19, "ERROR3"); (20, "ERROR4");
    (21, "FATAL"); (22, "FATAL2"); (23, "FATAL3"); (24, "FATAL4") ].

(** [getSeverityText(severityNumber?: number)] *)
Definition getSeverityText (severityNumber : option JS.number) : string :=
  match severityNumber with
  | Some n => switch n severityCases "UNSPECIFIED"
  | None => "UNSPECIFIED"
  end.

(** [getSeverityColor(severityNumber?: number)] *)
Definition getSeverityColor (severityNumber : option JS.number) : string :=
  match severityNumber with
  | None => "bg-gray-100 text-gray-800"
  | Some n =>
      if negb (JS.truthy n) then "bg-gray-100 text-gray-800"
      else if JS.ge n (JS.of_Z 1) && JS.le n (JS.of_Z 8)
      then "bg-blue-100 text-blue-800"
      else if JS.ge n (JS.of_Z 9) && JS.le n (JS.of_Z 12)
      then "bg-green-100 text-green-800"
      else if JS.ge n (JS.of_Z 13) && JS.le n (JS.of_Z 16)
      then "bg-yellow-100 text-yellow-800"
      else if JS.ge n (JS.of_Z 17) && JS.le n (JS.of_Z 20)
      then "bg-red-100 text-red-800"
      else if JS.ge n (JS.of_Z 21)
      then "bg-purple-100 text-purple-800"
      else "bg-gray-100 text-gray-800"
  end.

(** ** The log table ([src/components/LogTable.tsx]) *)

Module LogTable.

(** [formatTimestamp(timeUnixNano?: string | number)].  [format] stands for
    [format(new Date(ms), 'yyyy-MM-dd HH:mm:ss.SSS')] of [date-fns], which
    throws a [RangeError] for an invalid date: that is the [None] of its
    result, and of the result here. *)
Definition formatTimestamp (format : JS.number -> option string)
    (timeUnixNano : option TimeValue) : option string :=
  match timeUnixNano with
  | None => Some "N/A"
  | Some v =>
      if negb (truthyTime (Some v)) then Some "N/A"
      else
        let timeInMs := JS.div (Number v) (JS.of_Z 1000000) in
        format timeInMs
  end.

(** [formatBody(body?: string)]: [body || 'No message'] *)
Definition formatBody (body : option string) : string :=
  match body with
  | Some s => if JS.truthy_string s then s else "No message"
  | None => "No message"
  end.



End LogTable.

(** ** The page ([src/app/page.tsx]) *)

Module Home.

(** The three [useState] cells of the component. *)
Record state : Type := {
  logs : list LogEntry;
  loading : bool;
  error : option string;
}.

(** The state of the first render. *)
Definition initial : state :=
  {| logs := []; loading := true; error := None |}.

(** [loadLogs] up to its [await]: [setLoading(true); setError(null)]. *)
Definition loadLogs_begin (s : state) : state :=
  {| logs := logs s; loading := true; error := None |}.

(** What [await fetchLogs()] settles to, for the response data that the
    HTTP request delivers ([None]: the request itself fails). *)
Definition fetchOutcome (response : option IExportLogsServiceRequest)
  : option (list LogEntry) :=
  match response with
  | None => None
  | Some data =>
      match fetchLogs data with
      | Ok logData => Some logData
      | Throw _ => None
      end
  end.

(** [loadLogs] from the settled promise on: [setLogs(logData)], or the
    [catch] block; then [finally { setLoading(false) }]. *)
Definition loadLogs_settle (s : state) (outcome : option (list LogEntry))
  : state :=
  match outcome with
  | Some logData => {| logs := logData; loading := false; error := error s |}
  | None =>
      {| logs := logs s; loading := false;
         error := Some "Failed to load logs. Please try again later." |}
  end.

Definition loadLogs (s : state)
    (response : option IExportLogsServiceRequest) : state :=
  loadLogs_settle (loadLogs_begin s) (fetchOutcome response).

(** What the "Log Records" section shows:
    [loading ? spinner : error ? error display : logs.length === 0 ?
    "No logs found" : <LogTable logs={logs} />]. *)
Inductive tableView : Type :=
  | TableSpinner
  | TableError (message : string)
  | NoLogsFound
  | Table (rows : list LogEntry).

Definition tableSection (s : state) : tableView :=
  if loading s then TableSpinner
  else
    match error s with
    | Some message =>
        if JS.truthy_string message then TableError message
        else match logs s with [] => NoLogsFound | _ => Table (logs s) end
    | None => match logs s with [] => NoLogsFound | _ => Table (logs s) end
    end.

(** What the histogram section shows; [LogHistogram] itself shows a
    placeholder when [histogramData] is empty. *)
Inductive histogramView : Type :=
  | HistogramSpinner
  | HistogramError (message : string)
  | NoHistogramData
  | Chart (data : list HistogramBucket).

Definition LogHistogram (formatTimestamp : JS.number -> string)
    (logs : list LogEntry) : histogramView :=
  match histogramData formatTimestamp logs with
  | [] => NoHistogramData
  | data => Chart data
  end.

Definition histogramSection (formatTimestamp : JS.number -> string)
    (s : state) : histogramView :=
  if loading s then HistogramSpinner
  else
    match error s with
    | Some message =>
        if JS.truthy_string message then HistogramError message
        else LogHistogram formatTimestamp (logs s)
    | None => LogHistogram formatTimestamp (logs s)
    end.

End Home.

(** ** Further notions *)

(** The family and the suffix of the severity text of the number [n]. *)
Definition severityFamily (n : Z) : string :=
  match (n - 1) / 4 with
  | 0 => "TRACE" | 1 => "DEBUG" | 2 => "INFO"
  | 3 => "WARN" | 4 => "ERROR" | _ => "FATAL"
  end.

Definition severitySuffix (n : Z) : string :=
  match (n - 1) mod 4 with
  | 0 => "" | 1 => "2" | 2 => "3" | _ => "4"
  end.

(** The colour of a family. *)
Definition familyColor (family : string) : string :=
  if String.eqb family "TRACE" || String.eqb family "DEBUG"
  then "bg-blue-100 text-blue-800"
  else if String.eqb family "INFO" then "bg-green-100 text-green-800"
  else if String.eqb family "WARN" then "bg-yellow-100 text-yellow-800"
  else if String.eqb family "ERROR" then "bg-red-100 text-red-800"
  else "bg-purple-100 text-purple-800".



(** The characters of lower-case hexadecimal. *)
Definition hexChars : list ascii :=
  String.list_ascii_of_string "0123456789abcdef".


(** * Properties *)

(** ** The flattening loops as one traversal *)

Lemma mapM_option_app {A B} (g : A -> option B) (l1 l2 : list A) :
  mapM g (l1 ++ l2) =
  mapM g l1 ≫= fun k1 => mapM g l2 ≫= fun k2 => Some (k1 ++ k2).
Proof.
  induction l1 as [|x l1 IH]; simpl.
  - by destruct (mapM g l2).
  - destruct (g x) as [y|]; simpl; [|done].
    rewrite IH. destruct (mapM g l1); simpl; [|done].
    by destruct (mapM g l2).
Qed.

Lemma mapM_option_fmap {A B C} (g : B -> option C) (h : A -> B) (l : list A) :
  mapM g (h <$> l) = mapM (g ∘ h) l.
Proof.
  induction l as [|x l IH]; csimpl; [done|].
  destruct (g (h x)); csimpl; [|done]. f_equal. exact IH.
Qed.

Lemma forEach_bind {A B} (body : list LogEntry -> A -> result (list LogEntry))
    (f : A -> list B) (g : B -> option LogEntry) (xs : list A) :
  (forall x acc,
      body acc x = match mapM g (f x) with
                   | Some es => Ok (acc ++ es)
                   | None => Throw TypeError
                   end) ->
  forall acc,
    forEach body xs acc = match mapM g (xs ≫= f) with
                          | Some es => Ok (acc ++ es)
                          | None => Throw TypeError
                          end.
Proof.
  intros Hbody. induction xs as [|x xs IH]; intros acc; csimpl.
  - by rewrite app_nil_r.
  - rewrite Hbody, mapM_option_app.
    destruct (mapM g (f x)) as [es|]; csimpl; [|done].
    rewrite IH. destruct (mapM g (xs ≫= f)); csimpl; [|done].
    by rewrite app_assoc.
Qed.

Lemma processLogRecord_mapM ra sa acc lr :
  processLogRecord ra sa acc lr =
  match mapM (fun lr => makeLogEntry ra sa lr <$> lr_timeUnixNano lr) [lr] with
  | Some es => Ok (acc ++ es)
  | None => Throw TypeError
  end.
Proof. unfold processLogRecord. simpl. by destruct (lr_timeUnixNano lr). Qed.

Lemma collectLogs_mapM data :
  collectLogs data = match mapM entryOf (sourcesOf data) with
                     | Some es => Ok es
                     | None => Throw TypeError
                     end.
Proof.
  unfold collectLogs, sourcesOf, forEachIfArray.
  destruct (resourceLogs data) as [rs|]; simpl; [|done].
  apply (forEach_bind processResourceLog
           (fun r => default [] (scopeLogs r) ≫= fun s =>
                     (fun lr => (r, s, lr)) <$> default [] (logRecords s))
           entryOf).
  intros r acc. unfold processResourceLog, forEachIfArray.
  destruct (scopeLogs r) as [ss|]; simpl; [|by rewrite app_nil_r].
  apply (forEach_bind (processScopeLog (resourceAttributesOf r))
           (fun s => (fun lr => (r, s, lr)) <$> default [] (logRecords s))
           entryOf).
  intros s acc'. unfold processScopeLog, forEachIfArray.
  destruct (logRecords s) as [lrs|]; simpl; [|by rewrite app_nil_r].
  rewrite mapM_option_fmap.
  rewrite (forEach_bind _ (fun lr => [lr])
             (fun lr => makeLogEntry (resourceAttributesOf r)
                          (scopeAttributesOf s) lr <$> lr_timeUnixNano lr)).
  - replace (lrs ≫= fun lr => [lr]) with lrs; [done|].
    induction lrs as [|? ? IH]; csimpl; [done|]. by rewrite <- IH.
  - intros. apply processLogRecord_mapM.
Qed.

Lemma fetchLogs_mapM data :
  fetchLogs data = match mapM entryOf (sourcesOf data) with
                   | Some es => Ok (Array_sort newestFirst es)
                   | None => Throw TypeError
                   end.
Proof.
  unfold fetchLogs. rewrite collectLogs_mapM.
  by destruct (mapM entryOf (sourcesOf data)).
Qed.

Lemma length_sourcesOf data : length (sourcesOf data) = countLogRecords data.
Proof.
  unfold sourcesOf, countLogRecords.
  induction (default [] (resourceLogs data)) as [|r rs IH]; csimpl; [done|].
  rewrite length_app, sum_list_with_app. f_equal; [|exact IH]. clear IH.
  induction (default [] (scopeLogs r)) as [|s ss IHs]; csimpl; [done|].
  rewrite length_app, length_fmap. f_equal. exact IHs.
Qed.

Lemma entryOf_is_Some src :
  is_Some (entryOf src) <-> is_Some (lr_timeUnixNano src.2).
Proof.
  destruct src as [[r s] lr]; simpl. by rewrite fmap_is_Some.
Qed.

(** [fetchLogs] returns exactly when every record has a time. *)
Lemma fetchLogs_returns data :
  timesPresent data <-> exists out, fetchLogs data = Ok out.
Proof.
  rewrite fetchLogs_mapM. unfold timesPresent. split.
  - intros H. destruct (mapM_is_Some_2 entryOf (sourcesOf data)) as [es Hes].
    + eapply Forall_impl; [exact H|]. intros src. apply entryOf_is_Some.
    + rewrite Hes. eauto.
  - intros [out Hout].
    destruct (mapM entryOf (sourcesOf data)) as [es|] eqn:Hes; [|done].
    assert (Hs : is_Some (mapM entryOf (sourcesOf data))) by (rewrite Hes; eauto).
    apply mapM_is_Some_1 in Hs.
    eapply Forall_impl; [exact Hs|]. intros src. apply entryOf_is_Some.
Qed.
Lemma fetchLogs_throws data :
  fetchLogs data = Throw TypeError <-> ~ timesPresent data.
Proof.
  rewrite fetchLogs_returns. split.
  - intros H [out Hout]. congruence.
  - intros H. destruct (fetchLogs data) as [out|[]] eqn:E; [|done].
    destruct H. eauto.
Qed.

(** ** The sort is a permutation *)

Lemma sortInsert_Permutation {A} (cmp : A -> A -> JS.number) a l :
  sortInsert cmp a l ≡ₚ a :: l.
Proof.
  induction l as [|b l IH]; simpl; [done|].
  destruct (JS.gt (cmp a b) (JS.of_Z 0)); [|done].
  rewrite IH. apply Permutation_swap.
Qed.

Lemma Array_sort_Permutation {A} (cmp : A -> A -> JS.number) l :
  Array_sort cmp l ≡ₚ l.
Proof.
  induction l as [|a l IH]; simpl; [done|].
  by rewrite sortInsert_Permutation, IH.
Qed.

(** Every entry of the result is built by [entryOf] from its own record. *)
Lemma fetchLogs_entries data out :
  fetchLogs data = Ok out ->
  exists flat,
    collectLogs data = Ok flat /\ out = Array_sort newestFirst flat /\
    out ≡ₚ flat /\
    Forall2 (fun src e => entryOf src = Some e) (sourcesOf data) flat.
Proof.
  rewrite fetchLogs_mapM, collectLogs_mapM.
  destruct (mapM entryOf (sourcesOf data)) as [flat|] eqn:E; [|done].
  intros [= <-]. exists flat. split_and!; [done|done| |].
  - apply Array_sort_Permutation.
  - by apply mapM_Some_1.
Qed.

(** ** Attribute maps *)

Lemma storeAttribute_keyless obj attr :
  hasKey attr = false -> storeAttribute obj attr = obj.
Proof.
  unfold hasKey, storeAttribute. destruct (key attr) as [k|]; [|done].
  by intros ->.
Qed.

Lemma foldl_storeAttribute_keyed l obj :
  foldl storeAttribute obj (filter (fun attr => hasKey attr = true) l) =
  foldl storeAttribute obj l.
Proof.
  revert obj. induction l as [|attr l IH]; intros obj; [done|].
  destruct (hasKey attr) eqn:E.
  - rewrite filter_cons_True by done. simpl. apply IH.
  - rewrite filter_cons_False by (rewrite E; done). simpl.
    rewrite storeAttribute_keyless by done. apply IH.
Qed.

Lemma storeAttributes_keyed attrs obj :
  storeAttributes (keyed attrs) obj = storeAttributes attrs obj.
Proof.
  destruct attrs as [l|]; simpl; [|done]. apply foldl_storeAttribute_keyed.
Qed.

Lemma resourceAttributesOf_keyed r :
  resourceAttributesOf (keyedResourceLog r) = resourceAttributesOf r.
Proof.
  unfold resourceAttributesOf. destruct r as [[[attrs]|] ss]; simpl; [|done].
  apply storeAttributes_keyed.
Qed.

Lemma scopeAttributesOf_keyed s :
  scopeAttributesOf (keyedScopeLog s) = scopeAttributesOf s.
Proof.
  unfold scopeAttributesOf.
  destruct s as [[[n v attrs]|] lrs]; simpl; [|done].
  by rewrite storeAttributes_keyed.
Qed.

Lemma makeLogEntry_keyed ra sa lr t :
  makeLogEntry ra sa (keyedRecord lr) t = makeLogEntry ra sa lr t.
Proof. unfold makeLogEntry. simpl. by rewrite storeAttributes_keyed. Qed.

Lemma sources_records_keyed r s lrs :
  (fun lr => (keyedResourceLog r, keyedScopeLog s, lr)) <$> map keyedRecord lrs
  = keyedSource <$> ((fun lr => (r, s, lr)) <$> lrs).
Proof. induction lrs as [|lr lrs IH]; csimpl; [done|]. f_equal. exact IH. Qed.

Lemma sources_scopes_keyed r ss :
  (map keyedScopeLog ss ≫= fun s =>
     (fun lr => (keyedResourceLog r, s, lr)) <$> default [] (logRecords s))
  = keyedSource <$> (ss ≫= fun s =>
      (fun lr => (r, s, lr)) <$> default [] (logRecords s)).
Proof.
  induction ss as [|s ss IH]; csimpl; [done|].
  rewrite fmap_app. f_equal; [|exact IH].
  simpl. destruct (logRecords s) as [lrs|]; simpl; [|done].
  apply sources_records_keyed.
Qed.

Lemma sourcesOf_keyed data :
  sourcesOf (keyedRequest data) = keyedSource <$> sourcesOf data.
Proof.
  unfold sourcesOf. simpl. destruct (resourceLogs data) as [rs|]; simpl; [|done].
  induction rs as [|r rs IH]; csimpl; [done|].
  rewrite fmap_app. f_equal; [|exact IH].
  simpl. destruct (scopeLogs r) as [ss|]; simpl; [|done].
  apply sources_scopes_keyed.
Qed.

Lemma entryOf_keyed (src : source) : entryOf (keyedSource src) = entryOf src.
Proof.
  destruct src as [[r s] lr]. unfold keyedSource. simpl.
  rewrite resourceAttributesOf_keyed, scopeAttributesOf_keyed.
  destruct (lr_timeUnixNano lr); simpl; [|done].
  by rewrite makeLogEntry_keyed.
Qed.

Lemma fetchLogs_keyed data : fetchLogs (keyedRequest data) = fetchLogs data.
Proof.
  rewrite !fetchLogs_mapM, sourcesOf_keyed, mapM_option_fmap.
  by rewrite (mapM_ext _ entryOf) by (intros src; apply entryOf_keyed).
Qed.

Lemma setProperty_keys obj k v :
  k <> "" ->
  (forall j, is_Some (obj !! j) -> j <> "") ->
  forall j, is_Some (setProperty obj k v !! j) -> j <> "".
Proof.
  intros Hk Hobj j. unfold setProperty.
  destruct (String.eqb k "__proto__"); [apply Hobj|].
  destruct (decide (k = j)) as [<-|Hne]; [done|].
  rewrite lookup_insert_ne by done. apply Hobj.
Qed.

Lemma truthy_string_ne s : JS.truthy_string s = true <-> s <> "".
Proof. destruct s; simpl; split; try done. Qed.

Lemma storeAttribute_keys obj attr :
  (forall j, is_Some (obj !! j) -> j <> "") ->
  forall j, is_Some (storeAttribute obj attr !! j) -> j <> "".
Proof.
  intros Hobj. unfold storeAttribute.
  destruct (key attr) as [k|]; [|done].
  destruct (JS.truthy_string k) eqn:E; [|done].
  apply setProperty_keys; [|done]. by apply truthy_string_ne.
Qed.

Lemma storeAttributes_keys attrs obj :
  (forall j, is_Some (obj !! j) -> j <> "") ->
  forall j, is_Some (storeAttributes attrs obj !! j) -> j <> "".
Proof.
  destruct attrs as [l|]; simpl; [|done].
  revert obj. induction l as [|attr l IH]; intros obj Hobj; simpl; [done|].
  apply IH. by apply storeAttribute_keys.
Qed.

Lemma storeScopeField_keys k field obj :
  k <> "" ->
  (forall j, is_Some (obj !! j) -> j <> "") ->
  forall j, is_Some (storeScopeField k field obj !! j) -> j <> "".
Proof.
  intros Hk Hobj. unfold storeScopeField.
  destruct field as [s|]; [|done].
  destruct (JS.truthy_string s); [|done].
  by apply setProperty_keys.
Qed.

Lemma empty_keys (j : string) :
  is_Some ((∅ : gmap string AttributeValue) !! j) -> j <> "".
Proof. rewrite lookup_empty. by intros [? ?]. Qed.

Lemma entryOf_keysNonEmpty src e : entryOf src = Some e -> keysNonEmpty e.
Proof.
  destruct src as [[r s] lr]. simpl.
  destruct (lr_timeUnixNano lr) as [t|]; simpl; [|done].
  intros [= <-] k. simpl. intros [H|[H|H]]; revert k H.
  - apply storeAttributes_keys, empty_keys.
  - apply storeAttributes_keys, empty_keys.
  - unfold scopeAttributesOf.
    apply storeScopeField_keys; [done|].
    apply storeScopeField_keys; [done|].
    apply storeAttributes_keys, empty_keys.
Qed.

(** ** Extraction of a typed value *)

(** C8: [extractAnyValue] yields the first populated variant in the order
    string, int, double, bool, and [null] when no variant is populated or
    the value is absent; a value with only [boolValue: true] extracts to
    [true], and one with no field populated to [null]. *)
Theorem extractAnyValue_first_populated :
  (forall value,
      extractAnyValue value =
      default AVNull
        (value ≫= fun v => firstPopulated (variantsByPriority v))) /\
  extractAnyValue None = AVNull /\
  extractAnyValue (Some {| stringValue := None; boolValue := Some true;
                           intValue := None; doubleValue := None |})
  = AVBool true /\
  extractAnyValue (Some {| stringValue := None; boolValue := None;
                           intValue := None; doubleValue := None |})
  = AVNull.
Proof.
  split_and!; try reflexivity.
  intros [[[s|] [b|] [i|] [d|]]|]; reflexivity.
Qed.

(** ** Keys of the attribute maps *)

Lemma Forall2_elem_of_r {A B} (P : A -> B -> Prop) l k y :
  Forall2 P l k -> y ∈ k -> exists x, x ∈ l /\ P x y.
Proof.
  induction 1 as [|x y' l k Hxy _ IH]; intros Hy.
  - by apply elem_of_nil in Hy.
  - apply elem_of_cons in Hy as [->|Hy].
    + exists x. split; [left|done].
    + destruct (IH Hy) as (x' & ? & ?). exists x'. split; [by right|done].
Qed.

(** C10: every key of the three attribute maps of a produced entry is a
    non-empty string, and a payload gives the same result as the payload
    without its attribute pairs whose key is absent or empty. *)
Theorem keyless_attributes_omitted data :
  fetchLogs (keyedRequest data) = fetchLogs data /\
  (forall out e, fetchLogs data = Ok out -> e ∈ out -> keysNonEmpty e).
Proof.
  split; [apply fetchLogs_keyed|].
  intros out e Hout He.
  destruct (fetchLogs_entries _ _ Hout) as (flat & _ & _ & Hperm & Hflat).
  rewrite Hperm in He.
  destruct (Forall2_elem_of_r _ _ _ _ Hflat He) as (src & _ & Hsrc).
  by eapply entryOf_keysNonEmpty.
Qed.

Lemma keyless_attributes_omitted_witness :
  fetchLogs (keyedRequest requestWithKeylessAttributes)
  = fetchLogs requestWithKeylessAttributes /\
  exists e, fetchLogs requestWithKeylessAttributes = Ok [e] /\ keysNonEmpty e.
Proof.
  destruct (keyless_attributes_omitted requestWithKeylessAttributes)
    as [Heq Hkeys].
  split; [exact Heq|].
  eexists. split; [vm_compute; reflexivity|].
  eapply Hkeys; [vm_compute; reflexivity|]. left.
Defined.

(** ** The synthetic scope keys *)






(** ** Count preservation and absent containers *)






(** ** Records without a time *)

(** C2: on the code, a payload whose only log record has no [timeUnixNano]
    makes [fetchLogs] throw a [TypeError] instead of returning an entry
    whose time compares as [0]; on [{}] it returns the empty array. *)
Theorem fetchLogs_throws_without_time :
  fetchLogs requestWithoutTime = Throw TypeError /\
  fetchLogs emptyRequest = Ok [].
Proof. split; reflexivity. Qed.

(** ** Comparisons of numbers *)

Lemma Qle_bool_false x y : Qle_bool x y = false <-> (y < x)%Q.
Proof.
  rewrite <- not_true_iff_false, Qle_bool_iff. split.
  - apply Qnot_le_lt.
  - apply Qlt_not_le.
Qed.

Lemma gt_zero_Finite q :
  JS.gt (JS.Finite q) (JS.of_Z 0) = true <-> (0 < q)%Q.
Proof.
  unfold JS.gt, JS.lt, JS.of_Z. rewrite negb_true_iff, Qle_bool_false.
  reflexivity.
Qed.

Lemma sub_Finite x y : JS.sub (JS.Finite x) (JS.Finite y) = JS.Finite (x - y).
Proof. reflexivity. Qed.

Lemma le_Finite x y : JS.le (JS.Finite x) (JS.Finite y) = true <-> (x <= y)%Q.
Proof. unfold JS.le. apply Qle_bool_iff. Qed.


Lemma eq_Finite x y : JS.eq (JS.Finite x) (JS.Finite y) = true <-> (x == y)%Q.
Proof. unfold JS.eq. apply Qeq_bool_iff. Qed.

(** [compare(a, b) > 0] for [compare(a, b) = key(a) - key(b)] means that
    [key(b) <= key(a)], whatever the two numbers are. *)
Lemma sub_gt_zero_le a b :
  JS.gt (JS.sub a b) (JS.of_Z 0) = true -> JS.le b a = true.
Proof.
  destruct a as [x| | |], b as [y| | |]; try done.
  rewrite sub_Finite, gt_zero_Finite, le_Finite. lra.
Qed.

Lemma sub_not_gt_zero_le x y :
  JS.gt (JS.sub (JS.Finite x) (JS.Finite y)) (JS.of_Z 0) = false ->
  JS.le (JS.Finite x) (JS.Finite y) = true.
Proof.
  rewrite sub_Finite, <- not_true_iff_false, gt_zero_Finite, le_Finite. lra.
Qed.

Lemma le_trans a b c :
  JS.le a b = true -> JS.le b c = true -> JS.le a c = true.
Proof.
  destruct a as [x| | |], b as [y| | |], c as [z| | |]; try done.
  rewrite !le_Finite. lra.
Qed.


(** ** The sort: order and stability *)

Section sort_facts.
Context {A : Type} (cmp : A -> A -> JS.number).
Context (R : relation A) (P : A -> Prop).
Hypothesis R_trans : forall a b c, R a b -> R b c -> R a c.
Hypothesis cmp_gt : forall a b,
  P a -> P b -> JS.gt (cmp a b) (JS.of_Z 0) = true -> R b a.
Hypothesis cmp_not_gt : forall a b,
  P a -> P b -> JS.gt (cmp a b) (JS.of_Z 0) = false -> R a b.

Lemma sortInsert_StronglySorted a l :
  P a -> Forall P l -> StronglySorted R l ->
  StronglySorted R (sortInsert cmp a l).
Proof.
  intros Ha Hl Hs. induction Hs as [|b l Hs IH Hb]; simpl.
  - by repeat constructor.
  - apply Forall_cons in Hl as [Pb Hl].
    destruct (JS.gt (cmp a b) (JS.of_Z 0)) eqn:E.
    + constructor; [by apply IH|].
      rewrite sortInsert_Permutation. constructor; [by apply cmp_gt|done].
    + assert (Rab : R a b) by by apply cmp_not_gt.
      constructor; [by constructor|].
      constructor; [done|].
      eapply Forall_impl; [exact Hb|]. intros c Hc. by eapply R_trans.
Qed.

Lemma Array_sort_StronglySorted l :
  Forall P l -> StronglySorted R (Array_sort cmp l).
Proof.
  induction l as [|a l IH]; simpl; [constructor|].
  intros [Ha Hl]%Forall_cons. apply sortInsert_StronglySorted; [done| |auto].
  by rewrite Array_sort_Permutation.
Qed.
End sort_facts.




(** ** The order of the result *)


Lemma timeOf_TString e s :
  timeUnixNano e = Some (TString s) -> timeOf e = JS.StringToNumber s.
Proof. unfold timeOf. intros ->. by destruct s. Qed.








(** Scenario A of the specification: the newer record comes first, and both
    entries carry the synthetic scope keys. *)
Lemma scenarioA_result :
  exists e2 e1,
    fetchLogs scenarioA = Ok [e2; e1] /\
    timeUnixNano e2 = Some (TString "2000000000") /\ body e2 = "world" /\
    timeUnixNano e1 = Some (TString "1000000000") /\ body e1 = "hello" /\
    scopeAttributes e1 = scopeAttributes e2 /\
    scopeAttributes e1 !! "scope.name" = Some (AVString "svc") /\
    scopeAttributes e1 !! "scope.version" = Some (AVString "1.0").
Proof.
  do 2 eexists. split; [vm_compute; reflexivity|].
  split_and!; try reflexivity; by vm_compute.
Qed.

(** ** The number of buckets *)

Lemma lt_of_Z a b : JS.lt (JS.of_Z a) (JS.of_Z b) = bool_decide (a < b).
Proof.
  unfold JS.lt, JS.of_Z. case_bool_decide as H.
  - apply negb_true_iff, Qle_bool_false. by rewrite <- Zlt_Qlt.
  - apply negb_false_iff, Qle_bool_iff. rewrite <- Zle_Qle. lia.
Qed.

Lemma max_of_Z a b : JS.max (JS.of_Z a) (JS.of_Z b) = JS.of_Z (Z.max a b).
Proof.
  unfold JS.max. change (JS.of_Z a) with (JS.Finite (inject_Z a)) at 1.
  change (JS.of_Z b) with (JS.Finite (inject_Z b)) at 1.
  change (JS.Finite (inject_Z a)) with (JS.of_Z a).
  change (JS.Finite (inject_Z b)) with (JS.of_Z b).
  rewrite lt_of_Z. case_bool_decide; f_equal; lia.
Qed.

Lemma min_of_Z a b : JS.min (JS.of_Z a) (JS.of_Z b) = JS.of_Z (Z.min a b).
Proof.
  unfold JS.min. change (JS.of_Z a) with (JS.Finite (inject_Z a)) at 1.
  change (JS.of_Z b) with (JS.Finite (inject_Z b)) at 1.
  change (JS.Finite (inject_Z a)) with (JS.of_Z a).
  change (JS.Finite (inject_Z b)) with (JS.of_Z b).
  rewrite lt_of_Z. case_bool_decide; f_equal; lia.
Qed.

Lemma div_Finite_of_Z x n :
  n <> 0 -> JS.div (JS.Finite x) (JS.of_Z n) = JS.Finite (x / inject_Z n).
Proof.
  intros Hn. unfold JS.div, JS.of_Z.
  destruct (Qeq_bool (inject_Z n) 0) eqn:E; [|done].
  apply Qeq_bool_iff in E. change 0%Q with (inject_Z 0) in E.
  apply (proj1 (inject_Z_injective n 0)) in E. contradiction.
Qed.

Lemma ToLength_of_Z n : n <= 20 -> JS.ToLength (JS.of_Z n) = Z.to_nat n.
Proof. intros Hn. unfold JS.ToLength, JS.of_Z. rewrite Qfloor_Z. f_equal. lia. Qed.

Lemma numBucketsOf_Finite r :
  numBucketsOf (JS.Finite r)
  = JS.of_Z (clamp (Qceiling (r / 1000000000 / 5)) 10 20).
Proof.
  unfold numBucketsOf, clamp.
  rewrite !div_Finite_of_Z by done. unfold JS.ceil.
  by rewrite max_of_Z, min_of_Z.
Qed.

Lemma clamp_bounds x : 10 <= clamp x 10 20 <= 20.
Proof. unfold clamp. lia. Qed.

Lemma length_countLog mn bs nb buckets log :
  length (countLog mn bs nb buckets log) = length buckets.
Proof.
  unfold countLog. destruct (timeUnixNano log) as [v|]; [|done].
  destruct (negb _); [done|].
  destruct (_ && _); [|done].
  destruct (bucketIndexOf _ _ _ _); try done. apply length_alter.
Qed.

Lemma length_foldl_countLog mn bs nb logs buckets :
  length (foldl (countLog mn bs nb) buckets logs) = length buckets.
Proof.
  revert buckets. induction logs as [|log logs IH]; intros buckets; [done|].
  simpl. by rewrite IH, length_countLog.
Qed.

Lemma length_initBuckets mn bs nb :
  length (initBuckets mn bs nb) = JS.ToLength nb.
Proof. unfold initBuckets. by rewrite length_map, length_seq. Qed.

Lemma eq_zero_false q : JS.eq (JS.Finite q) (JS.of_Z 0) = false <-> ~ (q == 0)%Q.
Proof.
  unfold JS.of_Z. by rewrite <- not_true_iff_false, eq_Finite.
Qed.

(** The shape of [histogramBuckets] past its two early returns. *)
Lemma histogramBuckets_unfold logs mn mx :
  minTimeOf logs = Some (JS.Finite mn) ->
  maxTimeOf logs = Some (JS.Finite mx) ->
  ~ (mn == 0)%Q -> ~ (mx == 0)%Q ->
  let nb := clamp (Qceiling ((mx - mn) / 1000000000 / 5)) 10 20 in
  let bs := JS.Finite ((mx - mn) / inject_Z nb) in
  histogramBuckets logs =
  foldl (countLog (JS.Finite mn) bs (JS.of_Z nb))
    (initBuckets (JS.Finite mn) bs (JS.of_Z nb)) logs.
Proof.
  intros Hmin Hmax Hmn Hmx nb bs. unfold histogramBuckets.
  destruct logs as [|log logs]; [done|].
  rewrite Hmin, Hmax.
  rewrite (proj2 (eq_zero_false mn)), (proj2 (eq_zero_false mx)) by done.
  simpl. rewrite sub_Finite, numBucketsOf_Finite.
  fold nb. rewrite div_Finite_of_Z; [done|].
  pose proof (clamp_bounds (Qceiling ((mx - mn) / 1000000000 / 5))).
  unfold nb. lia.
Qed.



(** ** The smallest and the largest time *)

Lemma le_refl_Finite q : JS.le (JS.Finite q) (JS.Finite q) = true.
Proof. apply le_Finite. lra. Qed.

Lemma oldestFirst_sorted l :
  Forall numericEntry l ->
  StronglySorted (fun a b => JS.le (timeOf a) (timeOf b) = true)
    (Array_sort oldestFirst l).
Proof.
  apply (Array_sort_StronglySorted oldestFirst _ numericEntry).
  - intros a b c Hab Hbc. by eapply le_trans.
  - intros a b _ _. unfold oldestFirst. apply sub_gt_zero_le.
  - intros a b (x & Hx & _) (y & Hy & _). unfold oldestFirst.
    rewrite Hx, Hy. apply sub_not_gt_zero_le.
Qed.

(** [minTime] is the time of an entry, and no entry is earlier. *)
Lemma minTimeOf_spec logs :
  logs <> [] -> Forall numericEntry logs ->
  exists e mn,
    e ∈ logs /\ timeOf e = JS.Finite mn /\
    minTimeOf logs = Some (JS.Finite mn) /\
    Forall (fun x => JS.le (JS.Finite mn) (timeOf x) = true) logs.
Proof.
  intros Hne Hnum. pose proof (oldestFirst_sorted logs Hnum) as Hs.
  pose proof (Array_sort_Permutation oldestFirst logs) as Hperm.
  unfold minTimeOf.
  destruct (Array_sort oldestFirst logs) as [|e sorted] eqn:E.
  { apply Permutation_nil_l in Hperm. congruence. }
  assert (He : e ∈ logs) by (rewrite <- Hperm; left).
  rewrite Forall_forall in Hnum. destruct (Hnum e He) as (mn & Hmn & _).
  exists e, mn. split_and!; [done|done|by simpl; rewrite Hmn|].
  rewrite <- Hperm. rewrite <- Hmn. constructor.
  - rewrite Hmn. apply le_refl_Finite.
  - by apply StronglySorted_inv in Hs as [_ ?].
Qed.

(** [maxTime] is the time of an entry, and no entry is later. *)
Lemma maxTimeOf_spec logs :
  logs <> [] -> Forall numericEntry logs ->
  exists e mx,
    e ∈ logs /\ timeOf e = JS.Finite mx /\
    maxTimeOf logs = Some (JS.Finite mx) /\
    Forall (fun x => JS.le (timeOf x) (JS.Finite mx) = true) logs.
Proof.
  intros Hne Hnum. pose proof (oldestFirst_sorted logs Hnum) as Hs.
  pose proof (Array_sort_Permutation oldestFirst logs) as Hperm.
  unfold maxTimeOf.
  destruct (last (Array_sort oldestFirst logs)) as [e|] eqn:E.
  2:{ apply last_None in E. rewrite E in Hperm.
      apply Permutation_nil_l in Hperm. congruence. }
  apply last_Some in E as [sorted E]. rewrite E in Hs, Hperm.
  assert (He : e ∈ logs) by (rewrite <- Hperm; set_solver).
  rewrite Forall_forall in Hnum. destruct (Hnum e He) as (mx & Hmx & _).
  exists e, mx. split_and!; [done|done|by simpl; rewrite Hmx|].
  rewrite <- Hperm, <- Hmx. apply Forall_app. split.
  - apply Forall_forall. intros x Hx.
    eapply (StronglySorted_app_1_elem_of _ _ _ x e Hs); [done|set_solver].
  - constructor; [|constructor]. rewrite Hmx. apply le_refl_Finite.
Qed.


(** ** Entries that share one time *)

Lemma timeOf_truthy e v :
  timeUnixNano e = Some v -> truthyTime (Some v) = true -> timeOf e = Number v.
Proof. unfold timeOf. intros -> H. by rewrite H. Qed.

Lemma countLog_NaN mn bs nb buckets log :
  (forall v, timeUnixNano log = Some v -> truthyTime (Some v) = true ->
             bucketIndexOf mn bs nb (Number v) = JS.NaN) ->
  countLog mn bs nb buckets log = buckets.
Proof.
  intros H. unfold countLog. destruct (timeUnixNano log) as [v|]; [|done].
  destruct (truthyTime (Some v)) eqn:E; [|done]. simpl.
  by rewrite H.
Qed.

Lemma foldl_fixed {A B} (f : B -> A -> B) (b : B) (l : list A) :
  Forall (fun x => f b x = b) l -> foldl f b l = b.
Proof. induction 1 as [|x l Hx _ IH]; simpl; [done|]. by rewrite Hx. Qed.

Lemma Qnum_zero q : (q == 0)%Q -> Qnum q = 0.
Proof. unfold Qeq. simpl. lia. Qed.

(** [0 / 0] in the index of a bucket. *)
Lemma bucketIndexOf_zero_width mn bs nb q :
  (bs == 0)%Q -> (q == mn)%Q ->
  bucketIndexOf (JS.Finite mn) (JS.Finite bs) nb (JS.Finite q) = JS.NaN.
Proof.
  intros Hbs Hq. unfold bucketIndexOf. rewrite sub_Finite.
  unfold JS.div. rewrite (proj2 (Qeq_bool_iff bs 0) Hbs). unfold JS.sgn.
  rewrite (Qnum_zero (q - mn)) by lra. by destruct nb.
Qed.

Lemma bucket_count_initBuckets mn bs nb :
  map bucket_count (initBuckets mn bs nb) = replicate (JS.ToLength nb) 0%nat.
Proof.
  unfold initBuckets. rewrite map_map. simpl.
  assert (H : forall n s,
             map (fun _ : nat => 0%nat) (seq s n) = replicate n 0%nat).
  { induction n as [|n IH]; intros s; simpl; [done|]. by rewrite IH. }
  apply H.
Qed.

Lemma count_histogramData formatTimestamp logs :
  map count (histogramData formatTimestamp logs)
  = map bucket_count (histogramBuckets logs).
Proof. unfold histogramData. by rewrite map_map. Qed.

(** C5: on the code, a non-empty input whose entries all have the same
    non-zero time yields 10 buckets that all have count 0: for every entry
    [(time - minTime) / bucketSizeNanos] is [0 / 0], the index is [NaN], and
    the range test rejects it.  No entry is counted in bucket 0. *)
Theorem single_timestamp_histogram formatTimestamp logs t :
  logs <> [] -> (0 < t)%Q ->
  Forall (fun e => exists q, timeOf e = JS.Finite q /\ (q == t)%Q) logs ->
  map count (histogramData formatTimestamp logs) = replicate 10 0%nat.
Proof.
  intros Hne Ht Hall.
  assert (Hnum : Forall numericEntry logs).
  { eapply Forall_impl; [exact Hall|]. intros e (q & Hq & Hqt).
    exists q. split; [done|lra]. }
  destruct (minTimeOf_spec logs Hne Hnum) as (e1 & mn & He1 & Hmn & Hmin & _).
  destruct (maxTimeOf_spec logs Hne Hnum) as (e2 & mx & He2 & Hmx & Hmax & _).
  rewrite Forall_forall in Hall.
  destruct (Hall e1 He1) as (q1 & Hq1 & Hq1t).
  destruct (Hall e2 He2) as (q2 & Hq2 & Hq2t).
  assert (q1 = mn) as -> by congruence. assert (q2 = mx) as -> by congruence.
  rewrite count_histogramData.
  rewrite (histogramBuckets_unfold logs mn mx) by (done || lra).
  assert (Hd : (mx - mn == 0)%Q) by lra.
  assert (Hrange : ((mx - mn) / 1000000000 / 5 == 0)%Q) by by rewrite Hd.
  rewrite (Qceiling_comp _ _ Hrange). change (Qceiling 0) with 0.
  change (clamp 0 10 20) with 10.
  rewrite foldl_fixed.
  - by rewrite bucket_count_initBuckets, ToLength_of_Z.
  - apply Forall_forall. intros e He. apply countLog_NaN. intros v Hv Htr.
    destruct (Hall e He) as (q & Hq & Hqt).
    rewrite <- (timeOf_truthy e v Hv Htr), Hq.
    apply bucketIndexOf_zero_width; [|lra]. by rewrite Hd.
Qed.

Lemma single_timestamp_histogram_witness :
  map count (histogramData noLabel [entryAtZ 5; entryAtZ 5; entryAtZ 5])
  = replicate 10 0%nat.
Proof.
  apply (single_timestamp_histogram noLabel _ (inject_Z 5)).
  - discriminate.
  - reflexivity.
  - repeat constructor; exists (inject_Z 5); split; reflexivity.
Defined.

(** ** The counting loop *)

Lemma sub_of_Z a b : JS.sub (JS.of_Z a) (JS.of_Z b) = JS.of_Z (a - b).
Proof.
  unfold JS.sub, JS.add, JS.opp, JS.of_Z. f_equal.
  unfold Qplus, Qopp, inject_Z. simpl. f_equal. lia.
Qed.

Lemma div_Finite x y :
  ~ (y == 0)%Q -> JS.div (JS.Finite x) (JS.Finite y) = JS.Finite (x / y).
Proof.
  intros Hy. unfold JS.div.
  destruct (Qeq_bool y 0) eqn:E; [|done]. by apply Qeq_bool_iff in E.
Qed.

Lemma ge_of_Z a b : JS.ge (JS.of_Z a) (JS.of_Z b) = bool_decide (b <= a).
Proof.
  unfold JS.ge, JS.le, JS.of_Z. case_bool_decide as H.
  - apply Qle_bool_iff. by rewrite <- Zle_Qle.
  - apply not_true_iff_false. rewrite Qle_bool_iff, <- Zle_Qle. lia.
Qed.

Lemma timeOf_nonzero e q :
  timeOf e = JS.Finite q -> ~ (q == 0)%Q ->
  exists v, timeUnixNano e = Some v /\ truthyTime (Some v) = true
            /\ Number v = JS.Finite q.
Proof.
  unfold timeOf. intros H Hq.
  destruct (timeUnixNano e) as [v|]; [|by injection H as <-].
  destruct (truthyTime (Some v)) eqn:E; [|by injection H as <-].
  by exists v.
Qed.

(** An entry of time [q] between a non-zero [mn] and [mx] is counted, in the
    bucket that the specification gives it. *)
Lemma countLog_counted mn mx nb buckets e q :
  (mn < mx)%Q -> 0 < nb -> length buckets = Z.to_nat nb ->
  timeOf e = JS.Finite q -> ~ (q == 0)%Q -> (mn <= q)%Q ->
  (bucketOf mn mx nb q < length buckets)%nat /\
  countLog (JS.Finite mn) (JS.Finite ((mx - mn) / inject_Z nb)) (JS.of_Z nb)
    buckets e
  = alter incrementCount (bucketOf mn mx nb q) buckets.
Proof.
  intros Hlt Hnb Hlen Hq Hq0 Hle.
  destruct (timeOf_nonzero e q Hq Hq0) as (v & Hv & Htr & Hnum).
  assert (Hnbq : (0 < inject_Z nb)%Q) by (by rewrite <- (Zlt_Qlt 0)).
  assert (Hbs : (0 < (mx - mn) / inject_Z nb)%Q).
  { apply Qlt_shift_div_l; [done|]. lra. }
  set (bs := ((mx - mn) / inject_Z nb)%Q) in *.
  assert (Hf : 0 <= Qfloor ((q - mn) / bs)).
  { change 0 with (Qfloor 0). apply Qfloor_resp_le.
    apply Qle_shift_div_l; [done|]. lra. }
  unfold bucketOf. fold bs. set (f := Qfloor ((q - mn) / bs)) in *.
  split; [lia|].
  unfold countLog. rewrite Hv, Htr. simpl. rewrite Hnum.
  unfold bucketIndexOf.
  rewrite sub_Finite, div_Finite by lra. unfold JS.floor. fold f.
  rewrite sub_of_Z, min_of_Z, ge_of_Z, lt_of_Z.
  rewrite !bool_decide_eq_true_2 by lia. simpl.
  by rewrite Z.div_1_r.
Qed.

Lemma map_alter {A B} (g : A -> B) (h : A -> A) (h' : B -> B) i l :
  (forall x, g (h x) = h' (g x)) ->
  map g (alter h i l) = alter h' i (map g l).
Proof.
  intros Hgh. revert i. induction l as [|x l IH]; intros [|i]; simpl;
    try done.
  - by rewrite Hgh.
  - f_equal. apply IH.
Qed.

Lemma foldl_countLog_tally mn mx nb logs buckets :
  (mn < mx)%Q -> 0 < nb -> length buckets = Z.to_nat nb ->
  Forall (fun e => exists q, timeOf e = JS.Finite q /\ ~ (q == 0)%Q
                             /\ (mn <= q)%Q) logs ->
  map bucket_count
    (foldl (countLog (JS.Finite mn) (JS.Finite ((mx - mn) / inject_Z nb))
              (JS.of_Z nb)) buckets logs)
  = foldl (fun counts i => alter S i counts) (map bucket_count buckets)
      (map (fun e => bucketOf mn mx nb (timeQ e)) logs).
Proof.
  intros Hlt Hnb Hlen Hall. revert buckets Hlen.
  induction Hall as [|e logs (q & Hq & Hq0 & Hle) _ IH]; intros buckets Hlen;
    [done|].
  simpl.
  destruct (countLog_counted mn mx nb buckets e q) as [_ ->]; try done.
  rewrite IH by by rewrite length_alter.
  unfold timeQ. rewrite Hq. f_equal. by apply map_alter.
Qed.



(** The counts of the histogram, bucket by bucket. *)
Lemma histogramBuckets_counts logs mn mx :
  minTimeOf logs = Some (JS.Finite mn) ->
  maxTimeOf logs = Some (JS.Finite mx) ->
  ~ (mn == 0)%Q -> ~ (mx == 0)%Q -> (mn < mx)%Q ->
  Forall (fun e => exists q, timeOf e = JS.Finite q /\ ~ (q == 0)%Q
                             /\ (mn <= q)%Q) logs ->
  let nb := clamp (Qceiling ((mx - mn) / 1000000000 / 5)) 10 20 in
  map bucket_count (histogramBuckets logs)
  = tally (Z.to_nat nb) (map (fun e => bucketOf mn mx nb (timeQ e)) logs).
Proof.
  intros Hmin Hmax Hmn Hmx Hlt Hall nb.
  assert (Hnb : 10 <= nb <= 20) by apply clamp_bounds.
  rewrite (histogramBuckets_unfold logs mn mx) by done. fold nb.
  rewrite foldl_countLog_tally; try done; try lia.
  - unfold tally. by rewrite bucket_count_initBuckets, ToLength_of_Z by lia.
  - by rewrite length_initBuckets, ToLength_of_Z by lia.
Qed.

(** ** The total of the histogram *)

Lemma truthy_Finite q : JS.truthy (JS.Finite q) = true <-> ~ (q == 0)%Q.
Proof.
  unfold JS.truthy. by rewrite negb_true_iff, <- not_true_iff_false, Qeq_bool_iff.
Qed.

Lemma StringToNumber_truthy s :
  JS.truthy (JS.StringToNumber s) = true -> JS.truthy_string s = true.
Proof. by destruct s. Qed.

Lemma nonZeroTime_true e q :
  timeOf e = JS.Finite q -> nonZeroTime e = true -> ~ (q == 0)%Q.
Proof.
  unfold nonZeroTime, timeOf.
  destruct (timeUnixNano e) as [v|]; [|done]. cbn [from_option].
  intros Hq Hnz.
  assert (Htr : truthyTime (Some v) = true).
  { destruct v as [s|n]; simpl in *; [by apply StringToNumber_truthy|done]. }
  rewrite Htr in Hq. rewrite Hq in Hnz. by apply truthy_Finite.
Qed.

Lemma nonZeroTime_false e q :
  timeOf e = JS.Finite q -> nonZeroTime e = false -> (q == 0)%Q.
Proof.
  unfold nonZeroTime, timeOf.
  destruct (timeUnixNano e) as [v|]; [|by intros [= <-]]. cbn [from_option].
  destruct (truthyTime (Some v)); [|by intros [= <-]].
  intros -> Hnz. destruct (Qeq_dec q 0) as [|Hne]; [done|].
  apply truthy_Finite in Hne. congruence.
Qed.

Lemma histogramBuckets_zero_min logs mn :
  minTimeOf logs = Some (JS.Finite mn) -> (mn == 0)%Q ->
  histogramBuckets logs = [].
Proof.
  intros Hmin Hmn. unfold histogramBuckets.
  destruct logs as [|log logs]; [done|]. rewrite Hmin.
  destruct (maxTimeOf (log :: logs)); [|done].
  unfold JS.of_Z. by rewrite (proj2 (eq_Finite mn (inject_Z 0)) Hmn).
Qed.




(** ** Scenario D: 100 entries over ten seconds *)

Lemma timeOf_entryAtZ t : 0 < t -> timeOf (entryAtZ t) = JS.of_Z t.
Proof.
  destruct t as [|p|p]; try lia. intros _.
  unfold entryAtZ, entryAt, timeOf. cbn [timeUnixNano truthyTime Number].
  change (JS.Z_toString (Z.pos p))
    with (NilZero.string_of_uint (Pos.to_uint p)).
  pose proof (NilZero.usu (Pos.to_uint p) (Unsigned.to_uint_nonnil p)) as H.
  destruct (NilZero.string_of_uint (Pos.to_uint p)) as [|c s] eqn:E;
    [done|].
  change (NilEmpty.uint_of_string (String c s) = Some (Pos.to_uint p)) in H.
  cbn [JS.truthy_string]. unfold JS.StringToNumber. rewrite H.
  unfold Z.of_uint. by rewrite Unsigned.of_to.
Qed.

Lemma inject_Z_nonzero z : z <> 0 -> ~ (inject_Z z == 0)%Q.
Proof.
  intros Hz E. apply (proj1 (inject_Z_injective z 0)) in E. contradiction.
Qed.







(** ** Two remarks on the embedding of [histogramData] *)

(** [sortedLogs[0]] and [sortedLogs[sortedLogs.length - 1]] exist whenever
    [logs] is not empty. *)
Lemma minTimeOf_maxTimeOf_is_Some logs :
  logs <> [] -> is_Some (minTimeOf logs) /\ is_Some (maxTimeOf logs).
Proof.
  intros Hne. unfold minTimeOf, maxTimeOf.
  pose proof (Array_sort_Permutation oldestFirst logs) as Hperm.
  destruct (Array_sort oldestFirst logs) as [|e sorted] eqn:E.
  { apply Permutation_nil_l in Hperm. congruence. }
  split; [by eexists|].
  destruct (last (e :: sorted)) eqn:El; [by eexists|].
  by apply last_None in El.
Qed.

Lemma numBucketsOf_cases r :
  numBucketsOf r = JS.NaN \/ exists k, numBucketsOf r = JS.of_Z k.
Proof.
  destruct r as [q| | |].
  - right. eexists. apply numBucketsOf_Finite.
  - by left.
  - right. by exists 20.
  - right. by exists 10.
Qed.

(** A finite [bucketIndex] is an integer. *)
Lemma bucketIndexOf_integral mn bs r t q :
  bucketIndexOf mn bs (numBucketsOf r) t = JS.Finite q ->
  exists z, q = inject_Z z.
Proof.
  unfold bucketIndexOf.
  destruct (numBucketsOf_cases r) as [->|[k ->]].
  - by destruct (JS.floor (JS.div (JS.sub t mn) bs)).
  - rewrite sub_of_Z.
    destruct (JS.div (JS.sub t mn) bs) as [x| | |]; unfold JS.floor.
    + rewrite min_of_Z. intros [= <-]. by eexists.
    + done.
    + unfold JS.min, JS.lt, JS.of_Z. intros [= <-]. by eexists.
    + done.
Qed.

(** ** Further scenarios of the specification *)

(** Scenario C: an empty input gives an empty histogram. *)
Lemma scenarioC_result formatTimestamp : histogramData formatTimestamp [] = [].
Proof. reflexivity. Qed.

(** Scenario E: a trace id given as bytes is hex-encoded. *)
Lemma scenarioE_result :
  convertId (Some (IdBytes [Byte.xab; Byte.xcd])) = Some "abcd".
Proof. reflexivity. Qed.

(** * Further properties of the code *)

(** ** Severity text and colour *)

Lemma eq_of_Z a b : JS.eq (JS.of_Z a) (JS.of_Z b) = bool_decide (a = b).
Proof.
  unfold JS.eq, JS.of_Z. case_bool_decide as H.
  - subst. apply Qeq_bool_refl.
  - apply not_true_iff_false. rewrite Qeq_bool_iff.
    intros E. by apply (proj1 (inject_Z_injective a b)) in E.
Qed.

Lemma le_of_Z a b : JS.le (JS.of_Z a) (JS.of_Z b) = bool_decide (a <= b).
Proof. apply (ge_of_Z b a). Qed.

Lemma truthy_of_Z n : JS.truthy (JS.of_Z n) = bool_decide (n <> 0).
Proof.
  unfold JS.truthy, JS.of_Z. case_bool_decide as H.
  - apply negb_true_iff, not_true_iff_false. rewrite Qeq_bool_iff.
    by apply inject_Z_nonzero.
  - apply negb_false_iff, Qeq_bool_iff.
    assert (n = 0) as -> by lia. reflexivity.
Qed.

Lemma severity_range n :
  1 <= n <= 24 ->
  n = 1 \/ n = 2 \/ n = 3 \/ n = 4 \/ n = 5 \/ n = 6 \/ n = 7 \/ n = 8 \/
  n = 9 \/ n = 10 \/ n = 11 \/ n = 12 \/ n = 13 \/ n = 14 \/ n = 15 \/
  n = 16 \/ n = 17 \/ n = 18 \/ n = 19 \/ n = 20 \/ n = 21 \/ n = 22 \/
  n = 23 \/ n = 24.
Proof. lia. Qed.

(** X1: for an integer [n] from 1 to 24 the severity text is the family of
    [n] (TRACE, DEBUG, INFO, WARN, ERROR, FATAL: four numbers each) followed
    by its rank in the family ("", "2", "3", "4"). *)
Theorem getSeverityText_family n :
  1 <= n <= 24 ->
  getSeverityText (Some (JS.of_Z n)) = severityFamily n +:+ severitySuffix n.
Proof.
  intros H. apply severity_range in H.
  repeat (destruct H as [->|H]; [reflexivity|]). subst. reflexivity.
Qed.

Lemma getSeverityText_family_witness :
  getSeverityText (Some (JS.of_Z 14)) = "WARN2".
Proof. apply (getSeverityText_family 14). lia. Defined.

Lemma switch_fallback n cases fallback :
  Forall (fun c => c.2 <> fallback) cases ->
  switch n cases fallback = fallback <->
  Forall (fun c => JS.eq n (JS.of_Z c.1) = false) cases.
Proof.
  induction 1 as [|[k text] cases Hk _ IH]; simpl.
  - split; [constructor|done].
  - destruct (JS.eq n (JS.of_Z k)) eqn:E.
    + split; [done|]. intros [? _]%Forall_cons. simpl in *. congruence.
    + rewrite IH. split; [by constructor|by intros [_ ?]%Forall_cons].
Qed.

(** X2: the severity text is "UNSPECIFIED" exactly when the severity number
    is absent or is not one of the integers 1 to 24 (a fraction, a number
    out of the range, [NaN]). *)
Theorem getSeverityText_unspecified severityNumber :
  getSeverityText severityNumber = "UNSPECIFIED" <->
  forall n, 1 <= n <= 24 ->
    from_option (fun x => JS.eq x (JS.of_Z n)) false severityNumber = false.
Proof.
  destruct severityNumber as [x|]; [|done].
  unfold getSeverityText. cbn [from_option].
  rewrite switch_fallback by (unfold severityCases; repeat constructor; done).
  unfold severityCases. split.
  - intros Hall n Hn. apply severity_range in Hn.
    repeat (apply Forall_cons in Hall as [? Hall]). simpl in *.
    repeat (destruct Hn as [->|Hn]; [assumption|]). by subst.
  - intros H. repeat constructor; simpl; apply H; lia.
Qed.

Lemma getSeverityColor_of_Z n :
  getSeverityColor (Some (JS.of_Z n)) =
  if bool_decide (n <= 0) then "bg-gray-100 text-gray-800"
  else if bool_decide (n <= 8) then "bg-blue-100 text-blue-800"
  else if bool_decide (n <= 12) then "bg-green-100 text-green-800"
  else if bool_decide (n <= 16) then "bg-yellow-100 text-yellow-800"
  else if bool_decide (n <= 20) then "bg-red-100 text-red-800"
  else "bg-purple-100 text-purple-800".
Proof.
  unfold getSeverityColor.
  rewrite truthy_of_Z, !ge_of_Z, !le_of_Z.
  repeat case_bool_decide; simpl; try reflexivity; lia.
Qed.

(** X3: for an integer severity from 1 to 24 the colour of the badge is the
    colour of the family that the text names: blue for TRACE and DEBUG,
    green for INFO, yellow for WARN, red for ERROR, purple for FATAL. *)
Theorem getSeverityColor_family n :
  1 <= n <= 24 ->
  getSeverityColor (Some (JS.of_Z n)) = familyColor (severityFamily n).
Proof.
  intros H. apply severity_range in H.
  repeat (destruct H as [->|H]; [reflexivity|]). subst. reflexivity.
Qed.

Lemma getSeverityColor_family_witness :
  getSeverityColor (Some (JS.of_Z 14)) = "bg-yellow-100 text-yellow-800".
Proof. apply (getSeverityColor_family 14). lia. Defined.

(** X4: an integer severity above 24 gets the text "UNSPECIFIED" and yet
    the purple of FATAL; an integer below 1 gets "UNSPECIFIED" and grey. *)
Theorem getSeverity_out_of_range n :
  (24 < n ->
   getSeverityText (Some (JS.of_Z n)) = "UNSPECIFIED" /\
   getSeverityColor (Some (JS.of_Z n)) = "bg-purple-100 text-purple-800") /\
  (n < 1 ->
   getSeverityText (Some (JS.of_Z n)) = "UNSPECIFIED" /\
   getSeverityColor (Some (JS.of_Z n)) = "bg-gray-100 text-gray-800").
Proof.
  assert (Htext : n < 1 \/ 24 < n ->
                  getSeverityText (Some (JS.of_Z n)) = "UNSPECIFIED").
  { intros Hn. unfold getSeverityText.
    apply switch_fallback; unfold severityCases; repeat constructor;
      simpl; try done; rewrite eq_of_Z; apply bool_decide_eq_false_2; lia. }
  split; intros Hn; (split; [apply Htext; lia|]);
    rewrite getSeverityColor_of_Z; repeat case_bool_decide; try reflexivity;
    lia.
Qed.

Lemma getSeverity_out_of_range_witness :
  getSeverityText (Some (JS.of_Z 25)) = "UNSPECIFIED" /\
  getSeverityColor (Some (JS.of_Z 25)) = "bg-purple-100 text-purple-800".
Proof. apply (proj1 (getSeverity_out_of_range 25)). lia. Defined.

(** ** Duplicate and reserved attribute keys *)

Lemma setProperty_lookup obj k v j :
  setProperty obj k v !! j =
  if decide (k = j /\ k <> "__proto__") then Some v else obj !! j.
Proof.
  unfold setProperty. destruct (String.eqb k "__proto__") eqn:E.
  - apply String.eqb_eq in E. rewrite decide_False; [done|]. by intros [_ ?].
  - apply String.eqb_neq in E. destruct (decide (k = j)) as [->|Hne].
    + rewrite decide_True by done. apply lookup_insert_eq.
    + rewrite decide_False by (by intros [? _]). by apply lookup_insert_ne.
Qed.

Lemma storeAttribute_lookup obj attr j :
  storeAttribute obj attr !! j =
  if decide (key attr = Some j /\ j <> "" /\ j <> "__proto__")
  then Some (extractAnyValue (value attr))
  else obj !! j.
Proof.
  unfold storeAttribute. destruct (key attr) as [k|].
  - destruct (JS.truthy_string k) eqn:E.
    + rewrite setProperty_lookup. apply truthy_string_ne in E.
      destruct (decide (k = j)) as [->|Hne].
      * destruct (decide (j = "__proto__")) as [->|Hp].
        -- rewrite !decide_False; [done| |]; by intros (_ & ? & ?) || by intros [_ ?].
        -- by rewrite !decide_True.
      * rewrite !decide_False; [done| |]; intros [? _]; congruence.
    + assert (k = "") as -> by (by destruct k).
      rewrite decide_False; [done|]. intros ([= <-] & ? & _). done.
  - by rewrite decide_False by (by intros [? _]).
Qed.

Lemma foldl_storeAttribute_lookup l obj k :
  k <> "" -> k <> "__proto__" ->
  foldl storeAttribute obj l !! k =
  match last (filter (fun a => key a = Some k) l) with
  | Some a => Some (extractAnyValue (value a))
  | None => obj !! k
  end.
Proof.
  intros Hk Hp. induction l as [|a l IH] using rev_ind; [done|].
  rewrite foldl_app, filter_app. simpl. rewrite storeAttribute_lookup.
  destruct (decide (key a = Some k)) as [Ha|Ha].
  - rewrite decide_True by done.
    rewrite (filter_cons_True _ a []) by done.
    by rewrite filter_nil, last_snoc.
  - rewrite decide_False by (by intros [? _]).
    rewrite (filter_cons_False _ a []) by done.
    by rewrite filter_nil, app_nil_r.
Qed.


(** X5: when several attribute pairs of one array have the same key, the
    map holds the value of the last of them (for a key other than the empty
    string and ["__proto__"]). *)
Theorem storeAttributes_last_wins l k :
  k <> "" -> k <> "__proto__" ->
  storeAttributes (Some l) ∅ !! k =
  (fun a => extractAnyValue (value a))
    <$> last (filter (fun a => key a = Some k) l).
Proof.
  intros Hk Hp. simpl. rewrite foldl_storeAttribute_lookup by done.
  destruct (last _); simpl; [done|]. apply lookup_empty.
Qed.

Lemma storeAttributes_last_wins_witness :
  storeAttributes
    (Some [stringAttribute (Some "env") "dev";
           stringAttribute (Some "region") "eu";
           stringAttribute (Some "env") "prod"]) ∅ !! "env"
  = Some (AVString "prod").
Proof.
  rewrite storeAttributes_last_wins by done. reflexivity.
Defined.


(** ** More on the entries of [fetchLogs] *)

Lemma entryOf_maps src e :
  entryOf src = Some e ->
  resourceAttributes e = resourceAttributesOf src.1.1 /\
  scopeAttributes e = scopeAttributesOf src.1.2.
Proof.
  destruct src as [[r s] lr]. simpl.
  destruct (lr_timeUnixNano lr); simpl; [|done]. by intros [= <-].
Qed.

(** X7: two entries whose records lie under the same ResourceLogs have the
    same resource attribute map, and two entries whose records lie under
    the same ScopeLogs have the same scope attribute map. *)
Theorem fetchLogs_shared_attributes data out :
  fetchLogs data = Ok out ->
  exists flat,
    out ≡ₚ flat /\
    Forall2 (fun src e => entryOf src = Some e) (sourcesOf data) flat /\
    forall i j (si sj : source) ei ej,
      sourcesOf data !! i = Some si -> sourcesOf data !! j = Some sj ->
      flat !! i = Some ei -> flat !! j = Some ej ->
      (si.1.1 = sj.1.1 -> resourceAttributes ei = resourceAttributes ej) /\
      (si.1.2 = sj.1.2 -> scopeAttributes ei = scopeAttributes ej).
Proof.
  intros Hout.
  destruct (fetchLogs_entries _ _ Hout) as (flat & _ & _ & Hperm & Hflat).
  exists flat. split_and!; [done|done|].
  intros i j si sj ei ej Hsi Hsj Hei Hej.
  pose proof (Forall2_lookup_lr _ _ _ _ _ _ Hflat Hsi Hei) as Hi.
  pose proof (Forall2_lookup_lr _ _ _ _ _ _ Hflat Hsj Hej) as Hj.
  apply entryOf_maps in Hi as [-> ->]. apply entryOf_maps in Hj as [-> ->].
  split; by intros ->.
Qed.

Lemma fetchLogs_shared_attributes_witness :
  exists out flat,
    fetchLogs scenarioA = Ok out /\ out ≡ₚ flat /\
    Forall2 (fun src e => entryOf src = Some e) (sourcesOf scenarioA) flat.
Proof.
  eexists.
  assert (H : forall out, fetchLogs scenarioA = Ok out ->
            exists flat, fetchLogs scenarioA = Ok out /\ out ≡ₚ flat /\
              Forall2 (fun src e => entryOf src = Some e)
                (sourcesOf scenarioA) flat).
  { intros out Hout.
    destruct (fetchLogs_shared_attributes scenarioA out Hout)
      as (flat & ? & ? & _).
    by exists flat. }
  apply H. vm_compute. reflexivity.
Defined.

Lemma StringToNumber_Z_toString n :
  0 <= n -> JS.StringToNumber (JS.Z_toString n) = JS.of_Z n.
Proof.
  intros Hn. destruct (decide (n = 0)) as [->|Hne]; [reflexivity|].
  assert (Hpos : 0 < n) by lia.
  pose proof (timeOf_entryAtZ n Hpos) as H.
  rewrite (timeOf_TString (entryAtZ n) (JS.Z_toString n)) in H; done.
Qed.

(** X8: a [timeUnixNano] that arrives as a non-negative integral number is
    stored as its decimal string and reads back as the same number; one
    that arrives as a string is stored unchanged. *)
Theorem time_round_trip ra sa lr :
  (forall n, 0 <= n ->
     parsedTime (makeLogEntry ra sa lr (F64Number n)) = JS.of_Z n) /\
  (forall s,
     timeUnixNano (makeLogEntry ra sa lr (F64String s)) = Some (TString s)).
Proof.
  split; [|done]. intros n Hn. unfold parsedTime. simpl.
  by apply StringToNumber_Z_toString.
Qed.

Lemma time_round_trip_witness :
  parsedTime (makeLogEntry ∅ ∅ (recordAt None None None)
                (F64Number 1700000000000000000))
  = JS.of_Z 1700000000000000000.
Proof.
  apply (proj1 (time_round_trip ∅ ∅ (recordAt None None None))). lia.
Defined.

(** X9: [fetchLogs] returns the empty array exactly when the payload has no
    log record at all. *)
Theorem fetchLogs_empty_iff data :
  fetchLogs data = Ok [] <-> countLogRecords data = 0%nat.
Proof.
  rewrite <- length_sourcesOf. split.
  - intros Hout.
    destruct (fetchLogs_entries _ _ Hout) as (flat & _ & _ & Hperm & Hflat).
    rewrite (Forall2_length _ _ _ Hflat), <- Hperm. done.
  - intros Hlen. apply nil_length_inv in Hlen.
    rewrite fetchLogs_mapM, Hlen. done.
Qed.

(** X10: the body of an entry is the string that [extractAnyValue] would
    give for the same value, and the empty string when [extractAnyValue]
    gives a number, a boolean or [null]. *)
Theorem extractStringValue_extractAnyValue value :
  extractStringValue value =
  match extractAnyValue value with
  | AVString s => s
  | _ => ""
  end.
Proof. by destruct value as [[[s|] [b|] [i|] [d|]]|]. Qed.

(** ** Hexadecimal identifiers *)

Lemma N_below_16 n :
  (n < 16)%N ->
  n = 0%N \/ n = 1%N \/ n = 2%N \/ n = 3%N \/ n = 4%N \/ n = 5%N \/
  n = 6%N \/ n = 7%N \/ n = 8%N \/ n = 9%N \/ n = 10%N \/ n = 11%N \/
  n = 12%N \/ n = 13%N \/ n = 14%N \/ n = 15%N.
Proof. lia. Qed.


Lemma hex_digit_hexChars n : (n < 16)%N -> hex_digit n ∈ hexChars.
Proof.
  intros H. apply N_below_16 in H. unfold hexChars. simpl.
  repeat (destruct H as [->|H]; [set_solver|]). subst. set_solver.
Qed.

Lemma byte_nibbles b :
  (Byte.to_N b / 16 < 16)%N /\ (Byte.to_N b mod 16 < 16)%N.
Proof.
  pose proof (Byte.to_N_bounded b). split.
  - apply N.Div0.div_lt_upper_bound. lia.
  - apply N.mod_lt. lia.
Qed.

(** X11: the hexadecimal form of a byte sequence has two characters per
    byte, all of them among [0-9a-f]. *)
Theorem toHex_shape bs :
  String.length (toHex bs) = (2 * length bs)%nat /\
  Forall (fun c => c ∈ hexChars) (String.list_ascii_of_string (toHex bs)).
Proof.
  induction bs as [|b bs [IHlen IHchars]]; [by split|].
  destruct (byte_nibbles b) as [Hhi Hlo]. cbn [toHex]. split.
  - cbn [String.length length]. rewrite IHlen. lia.
  - cbn [String.list_ascii_of_string].
    apply Forall_cons. split; [by apply hex_digit_hexChars|].
    apply Forall_cons. split; [by apply hex_digit_hexChars|done].
Qed.



(** ** The counts of the histogram, bucket by bucket *)

Lemma foldl_alter_S_lookup idxs (counts : list nat) j :
  foldl (fun counts i => alter S i counts) counts idxs !! j
  = (fun c => (c + length (filter (fun i => i = j) idxs))%nat) <$> counts !! j.
Proof.
  revert counts. induction idxs as [|i idxs IH]; intros counts; simpl.
  - destruct (counts !! j); simpl; [f_equal; lia|done].
  - rewrite IH. destruct (decide (i = j)) as [->|Hne].
    + rewrite list_lookup_alter_eq, filter_cons_True by done.
      destruct (counts !! j); simpl; [f_equal; lia|done].
    + rewrite list_lookup_alter_ne, filter_cons_False by done. done.
Qed.

Lemma tally_lookup n idxs j :
  (j < n)%nat ->
  tally n idxs !! j = Some (length (filter (fun i => i = j) idxs)).
Proof.
  intros Hj. unfold tally. rewrite foldl_alter_S_lookup.
  by rewrite lookup_replicate_2.
Qed.

Lemma length_tally n idxs : length (tally n idxs) = n.
Proof.
  unfold tally.
  assert (H : forall counts : list nat,
            length (foldl (fun counts i => alter S i counts) counts idxs)
            = length counts).
  { induction idxs as [|i idxs IH]; intros counts; simpl; [done|].
    by rewrite IH, length_alter. }
  by rewrite H, length_replicate.
Qed.

Lemma tally_Permutation n idxs idxs' :
  idxs ≡ₚ idxs' -> tally n idxs = tally n idxs'.
Proof.
  intros Hperm. apply list_eq. intros j.
  destruct (decide (j < n)%nat) as [Hj|Hj].
  - rewrite !tally_lookup by done. f_equal.
    apply Permutation_length. by rewrite Hperm.
  - rewrite !lookup_ge_None_2; [done| |]; rewrite length_tally; lia.
Qed.


(** The facts that the proofs about a non-degenerate histogram start
    from. *)
Lemma nondegenerate_times logs :
  logs <> [] -> Forall numericEntry logs ->
  Forall (fun e => nonZeroTime e = true) logs ->
  exists mn mx,
    minTimeOf logs = Some (JS.Finite mn) /\
    maxTimeOf logs = Some (JS.Finite mx) /\
    ~ (mn == 0)%Q /\ ~ (mx == 0)%Q /\ (mn <= mx)%Q /\
    (exists e, e ∈ logs /\ timeOf e = JS.Finite mn) /\
    (exists e, e ∈ logs /\ timeOf e = JS.Finite mx) /\
    Forall (fun e => exists q, timeOf e = JS.Finite q /\ ~ (q == 0)%Q
                               /\ (mn <= q)%Q /\ (q <= mx)%Q) logs.
Proof.
  intros Hne Hnum Hnz.
  destruct (minTimeOf_spec logs Hne Hnum) as (e1 & mn & He1 & Hmn & Hmin & Hle).
  destruct (maxTimeOf_spec logs Hne Hnum) as (e2 & mx & He2 & Hmx & Hmax & Hge).
  rewrite Forall_forall in Hnum, Hle, Hge, Hnz.
  exists mn, mx. split_and!; try done.
  - by eapply nonZeroTime_true; [|apply Hnz].
  - by eapply nonZeroTime_true; [|apply Hnz].
  - pose proof (Hle e2 He2) as H. rewrite Hmx in H. by apply le_Finite.
  - eauto.
  - eauto.
  - apply Forall_forall. intros e He.
    destruct (Hnum e He) as (q & Hq & _). exists q.
    pose proof (Hle e He) as H1. pose proof (Hge e He) as H2.
    rewrite Hq in H1, H2. rewrite le_Finite in H1, H2.
    split_and!; try done. by eapply nonZeroTime_true; [|apply Hnz].
Qed.




(** ** The first and the last bucket *)

Lemma bucketOf_comp mn mx nb q mn' mx' q' :
  (mn == mn')%Q -> (mx == mx')%Q -> (q == q')%Q ->
  bucketOf mn mx nb q = bucketOf mn' mx' nb q'.
Proof.
  intros H1 H2 H3. unfold bucketOf. do 2 f_equal.
  apply Qfloor_comp. by rewrite H1, H2, H3.
Qed.





Lemma sample_numeric :
  Forall numericEntry [entryAtZ 5; entryAtZ 7; entryAtZ 6].
Proof.
  repeat constructor.
  - exists (inject_Z 5). split; [reflexivity|discriminate].
  - exists (inject_Z 7). split; [reflexivity|discriminate].
  - exists (inject_Z 6). split; [reflexivity|discriminate].
Qed.


(** ** The order of the input does not matter *)

Lemma histogramBuckets_single_time logs mn mx :
  minTimeOf logs = Some (JS.Finite mn) ->
  maxTimeOf logs = Some (JS.Finite mx) ->
  ~ (mn == 0)%Q -> ~ (mx == 0)%Q -> (mn == mx)%Q ->
  Forall (fun e => exists q, timeOf e = JS.Finite q /\ (mn <= q)%Q
                             /\ (q <= mx)%Q) logs ->
  map bucket_count (histogramBuckets logs) = replicate 10 0%nat.
Proof.
  intros Hmin Hmax Hmn Hmx Heq Hall.
  rewrite (histogramBuckets_unfold logs mn mx) by done.
  assert (Hd : (mx - mn == 0)%Q) by lra.
  assert (Hrange : ((mx - mn) / 1000000000 / 5 == 0)%Q) by by rewrite Hd.
  rewrite (Qceiling_comp _ _ Hrange). change (Qceiling 0) with 0.
  change (clamp 0 10 20) with 10.
  rewrite foldl_fixed.
  - by rewrite bucket_count_initBuckets, ToLength_of_Z.
  - eapply Forall_impl; [exact Hall|]. intros e (q & Hq & H1 & H2).
    apply countLog_NaN. intros v Hv Htr.
    rewrite <- (timeOf_truthy e v Hv Htr), Hq.
    apply bucketIndexOf_zero_width; [|lra]. by rewrite Hd.
Qed.

(** X15: for entries with numeric times, the counts of the histogram depend
    on the entries and not on their order: a permutation of the input gives
    the same counts. *)
Theorem histogram_counts_permutation formatTimestamp logs logs' :
  logs ≡ₚ logs' -> Forall numericEntry logs ->
  map count (histogramData formatTimestamp logs)
  = map count (histogramData formatTimestamp logs').
Proof.
  intros Hperm Hnum. rewrite !count_histogramData.
  destruct (decide (logs = [])) as [->|Hne].
  { apply Permutation_nil_l in Hperm. by subst. }
  assert (Hne' : logs' <> [])
    by (intros ->; by apply Permutation_nil_r in Hperm).
  assert (Hnum' : Forall numericEntry logs') by by rewrite <- Hperm.
  destruct (minTimeOf_spec logs Hne Hnum) as (a & mn & Ha & Hqa & Hmin & Hle).
  destruct (maxTimeOf_spec logs Hne Hnum) as (b & mx & Hb & Hqb & Hmax & Hge).
  destruct (minTimeOf_spec logs' Hne' Hnum')
    as (a' & mn' & Ha' & Hqa' & Hmin' & Hle').
  destruct (maxTimeOf_spec logs' Hne' Hnum')
    as (b' & mx' & Hb' & Hqb' & Hmax' & Hge').
  rewrite Forall_forall in Hle, Hge, Hle', Hge', Hnum.
  assert (Hmn : (mn == mn')%Q).
  { pose proof (Hle a') as H1. pose proof (Hle' a) as H2.
    rewrite Hqa', le_Finite in H1. rewrite Hqa, le_Finite in H2.
    apply Qle_antisym; [apply H1; by rewrite Hperm|apply H2; by rewrite <- Hperm]. }
  assert (Hmx : (mx == mx')%Q).
  { pose proof (Hge b') as H1. pose proof (Hge' b) as H2.
    rewrite Hqb', le_Finite in H1. rewrite Hqb, le_Finite in H2.
    apply Qle_antisym; [apply H2; by rewrite <- Hperm|apply H1; by rewrite Hperm]. }
  destruct (Qeq_dec mn 0) as [Hz|Hnz].
  { rewrite (histogramBuckets_zero_min logs mn), (histogramBuckets_zero_min logs' mn');
      [done|done|lra|done|done]. }
  assert (Hmnpos : (0 < mn)%Q).
  { destruct (Hnum a Ha) as (q & Hq & Hq0). assert (q = mn) as -> by congruence.
    lra. }
  assert (Hmnmx : (mn <= mx)%Q).
  { pose proof (Hle b Hb) as H. rewrite Hqb in H. by apply le_Finite. }
  assert (Hall : forall e, e ∈ logs ->
            exists q, timeOf e = JS.Finite q /\ (mn <= q)%Q /\ (q <= mx)%Q).
  { intros e He. destruct (Hnum e He) as (q & Hq & _). exists q.
    pose proof (Hle e He) as H1. pose proof (Hge e He) as H2.
    rewrite Hq in H1, H2. rewrite le_Finite in H1, H2. done. }
  destruct (Qlt_le_dec mn mx) as [Hlt|Hge0].
  - rewrite (histogramBuckets_counts logs mn mx),
      (histogramBuckets_counts logs' mn' mx'); try done; try lra.
    + assert (Hr : ((mx - mn) / 1000000000 / 5
                    == (mx' - mn') / 1000000000 / 5)%Q) by by rewrite Hmn, Hmx.
      rewrite <- (Qceiling_comp _ _ Hr).
      rewrite (map_ext (fun e => bucketOf mn' mx' _ (timeQ e))
                 (fun e => bucketOf mn mx
                   (clamp (Qceiling ((mx - mn) / 1000000000 / 5)) 10 20)
                   (timeQ e)))
        by (intros e; by apply bucketOf_comp).
      apply tally_Permutation. by apply Permutation_map.
    + apply Forall_forall. intros e He. rewrite <- Hperm in He.
      destruct (Hall e He) as (q & Hq & H1 & H2). exists q.
      split_and!; [done|lra|lra].
    + apply Forall_forall. intros e He.
      destruct (Hall e He) as (q & Hq & H1 & H2). exists q.
      split_and!; [done|lra|lra].
  - rewrite (histogramBuckets_single_time logs mn mx),
      (histogramBuckets_single_time logs' mn' mx'); try done; try lra.
    + apply Forall_forall. intros e He. rewrite <- Hperm in He.
      destruct (Hall e He) as (q & Hq & H1 & H2). exists q.
      split_and!; [done|lra|lra].
    + apply Forall_forall. intros e He. by apply Hall.
Qed.

Lemma histogram_counts_permutation_witness :
  map count (histogramData noLabel [entryAtZ 5; entryAtZ 7; entryAtZ 6])
  = map count (histogramData noLabel [entryAtZ 6; entryAtZ 5; entryAtZ 7]).
Proof.
  apply histogram_counts_permutation; [|exact sample_numeric].
  apply (Permutation_cons_append [entryAtZ 5; entryAtZ 7] (entryAtZ 6))
    || (symmetry; apply (Permutation_cons_append [entryAtZ 5; entryAtZ 7])).
Defined.

(** ** When the histogram is empty *)

Lemma histogramBuckets_zero_time logs :
  Forall numericEntry logs ->
  Exists (fun e => nonZeroTime e = false) logs ->
  histogramBuckets logs = [].
Proof.
  intros Hnum Hex. apply Exists_exists in Hex as (e0 & He0 & Hz).
  assert (Hne : logs <> []) by (intros ->; by apply elem_of_nil in He0).
  destruct (minTimeOf_spec logs Hne Hnum) as (e1 & mn & He1 & Hmn & Hmin & Hle).
  rewrite Forall_forall in Hnum, Hle.
  destruct (Hnum e0 He0) as (q0 & Hq0 & _).
  destruct (Hnum e1 He1) as (q1 & Hq1 & Hq1pos).
  assert (q1 = mn) as -> by congruence.
  pose proof (nonZeroTime_false e0 q0 Hq0 Hz) as Hq0z.
  specialize (Hle e0 He0). rewrite Hq0, le_Finite in Hle.
  apply (histogramBuckets_zero_min logs mn Hmin). lra.
Qed.

(** X16: for entries with numeric times, the histogram is empty exactly
    when there is no entry or some entry has an absent or zero time; in
    every other case it has at least 10 buckets. *)
Theorem histogram_empty_iff formatTimestamp logs :
  Forall numericEntry logs ->
  (histogramData formatTimestamp logs = [] <->
   logs = [] \/ Exists (fun e => nonZeroTime e = false) logs) /\
  (histogramData formatTimestamp logs <> [] ->
   (10 <= length (histogramData formatTimestamp logs))%nat).
Proof.
  intros Hnum.
  assert (Hcases : logs = [] \/ Exists (fun e => nonZeroTime e = false) logs
                   \/ (10 <= length (histogramBuckets logs))%nat).
  { destruct (decide (logs = [])) as [|Hne]; [by left|]. right.
    destruct (decide (Exists (fun e => nonZeroTime e = false) logs))
      as [|Hnex]; [by left|]. right.
    assert (Hnz : Forall (fun e => nonZeroTime e = true) logs).
    { apply not_Exists_Forall in Hnex; [|apply _].
      eapply Forall_impl; [exact Hnex|]. intros e He. simpl in He.
      by destruct (nonZeroTime e). }
    destruct (nondegenerate_times logs Hne Hnum Hnz)
      as (mn & mx & Hmin & Hmax & Hmn0 & Hmx0 & _).
    rewrite (histogramBuckets_unfold logs mn mx) by done.
    rewrite length_foldl_countLog, length_initBuckets.
    pose proof (clamp_bounds (Qceiling ((mx - mn) / 1000000000 / 5))).
    rewrite ToLength_of_Z; lia. }
  assert (Hlen : length (histogramData formatTimestamp logs)
                 = length (histogramBuckets logs))
    by (unfold histogramData; apply length_map).
  split.
  - split.
    + intros Hempty. rewrite Hempty in Hlen. simpl in Hlen.
      destruct Hcases as [?|[?|?]]; [by left|by right|lia].
    + intros [->|Hex]; [done|]. unfold histogramData.
      by rewrite histogramBuckets_zero_time.
  - intros Hne. destruct Hcases as [->|[Hex|?]]; [done| |lia].
    destruct Hne. unfold histogramData.
    by rewrite histogramBuckets_zero_time.
Qed.

Lemma histogram_empty_iff_witness :
  histogramData noLabel [entryAt None; entryAtZ 5; entryAtZ 7] = [].
Proof.
  assert (Hnum : Forall numericEntry [entryAt None; entryAtZ 5; entryAtZ 7]).
  { repeat constructor.
    - exists (inject_Z 0). split; [reflexivity|discriminate].
    - exists (inject_Z 5). split; [reflexivity|discriminate].
    - exists (inject_Z 7). split; [reflexivity|discriminate]. }
  apply (proj1 (histogram_empty_iff noLabel _ Hnum)).
  right. left. reflexivity.
Defined.

(** ** Later entries go to later buckets *)

(** X17: the bucket index does not decrease with the time of the entry:
    for a positive bucket width and finite times [t1 <= t2], the index of
    [t1] is at most the index of [t2]. *)
Theorem bucketIndexOf_monotone mn bs k t1 t2 :
  (0 < bs)%Q -> (t1 <= t2)%Q ->
  JS.le (bucketIndexOf (JS.Finite mn) (JS.Finite bs) (JS.of_Z k) (JS.Finite t1))
        (bucketIndexOf (JS.Finite mn) (JS.Finite bs) (JS.of_Z k) (JS.Finite t2))
  = true.
Proof.
  intros Hbs Ht. unfold bucketIndexOf.
  rewrite !sub_Finite, !div_Finite by lra. unfold JS.floor.
  rewrite sub_of_Z, !min_of_Z, le_of_Z. apply bool_decide_eq_true_2.
  assert (H : (Qfloor ((t1 - mn) / bs) <= Qfloor ((t2 - mn) / bs))%Z).
  { apply Qfloor_resp_le. unfold Qdiv. apply Qmult_le_compat_r; [lra|].
    apply Qinv_le_0_compat. lra. }
  lia.
Qed.

Lemma bucketIndexOf_monotone_witness :
  JS.le (bucketIndexOf (JS.of_Z 5) (JS.Finite (2 # 10)) (JS.of_Z 10) (JS.of_Z 6))
        (bucketIndexOf (JS.of_Z 5) (JS.Finite (2 # 10)) (JS.of_Z 10) (JS.of_Z 7))
  = true.
Proof.
  apply (bucketIndexOf_monotone (inject_Z 5) (2 # 10) 10 (inject_Z 6)
           (inject_Z 7)); [reflexivity|discriminate].
Defined.

(** ** The labels of the buckets *)





(** ** The log table *)

(** X19: the body cell is never empty: it shows the string variant of the
    record's body, and "No message" when the body is absent, has no string
    variant, or is the empty string. *)
Theorem formatBody_of_entry :
  (forall body, LogTable.formatBody body <> "") /\
  (forall value,
     LogTable.formatBody (Some (extractStringValue value)) =
     match value ≫= stringValue with
     | Some (String c s) => String c s
     | _ => "No message"
     end).
Proof.
  split.
  - intros [[|c s]|]; done.
  - intros [[[[|c s]|] b i d]|]; done.
Qed.

Lemma truthy_Z_toString n : 0 <= n -> JS.truthy_string (JS.Z_toString n) = true.
Proof.
  intros Hn. destruct (JS.Z_toString n) as [|c s] eqn:E; [|done].
  pose proof (StringToNumber_Z_toString n Hn) as H. rewrite E in H.
  injection H as H. change (Z.of_uint Decimal.Nil) with 0 in H.
  subst. discriminate.
Qed.

(** X20: for an entry whose record had a non-negative integral number [n]
    as its time, the time cell is the formatted date of [n / 10^6]
    milliseconds; it is never "N/A", not even for [n = 0]. *)
Theorem formatTimestamp_of_numeric_time format ra sa lr n :
  0 <= n ->
  LogTable.formatTimestamp format
    (timeUnixNano (makeLogEntry ra sa lr (F64Number n)))
  = format (JS.Finite (inject_Z n / 1000000)).
Proof.
  intros Hn. unfold LogTable.formatTimestamp. cbn [timeUnixNano makeLogEntry].
  cbn [truthyTime Fixed64_toString Number].
  rewrite truthy_Z_toString by done. cbn [negb].
  rewrite StringToNumber_Z_toString by done.
  change (JS.of_Z n) with (JS.Finite (inject_Z n)).
  by rewrite (div_Finite_of_Z (inject_Z n) 1000000).
Qed.

Lemma formatTimestamp_of_numeric_time_witness :
  LogTable.formatTimestamp (fun _ => Some "1970-01-01 00:00:00.000")
    (timeUnixNano (makeLogEntry ∅ ∅ (recordAt None None None) (F64Number 0)))
  = Some "1970-01-01 00:00:00.000".
Proof.
  apply (formatTimestamp_of_numeric_time
           (fun _ => Some "1970-01-01 00:00:00.000")). lia.
Defined.








(** ** The page *)

(** X22: when the request fails, or some log record of the response has no
    [timeUnixNano], a load ends with both sections showing the error
    message, whatever the page showed before; the logs that the page held
    stay in its state. *)
Theorem load_failure formatTimestamp s response :
  response = None \/
    (exists data, response = Some data /\ ~ timesPresent data) ->
  let s' := Home.loadLogs s response in
  Home.tableSection s'
    = Home.TableError "Failed to load logs. Please try again later." /\
  Home.histogramSection formatTimestamp s'
    = Home.HistogramError "Failed to load logs. Please try again later." /\
  Home.logs s' = Home.logs s.
Proof.
  intros H s'.
  assert (Hout : Home.fetchOutcome response = None).
  { destruct H as [->|(data & -> & Hdata)]; [done|]. simpl.
    apply fetchLogs_throws in Hdata. by rewrite Hdata. }
  unfold s', Home.loadLogs. rewrite Hout. done.
Qed.

Lemma load_failure_witness :
  Home.tableSection (Home.loadLogs Home.initial (Some requestWithoutTime))
  = Home.TableError "Failed to load logs. Please try again later.".
Proof.
  apply (load_failure noLabel Home.initial (Some requestWithoutTime)).
  right. exists requestWithoutTime. split; [done|].
  apply fetchLogs_throws. reflexivity.
Defined.

(** X23: when every log record of the response has a [timeUnixNano], a
    load ends, whatever the page showed before, with the table of the
    entries of [fetchLogs], one row per log record, or with "No logs found"
    if the response has no log record; the histogram section shows the
    histogram of the same entries, or its placeholder. *)
Theorem load_success formatTimestamp s data :
  timesPresent data ->
  let s' := Home.loadLogs s (Some data) in
  fetchLogs data = Ok (Home.logs s') /\
  length (Home.logs s') = countLogRecords data /\
  Home.tableSection s'
    = (if decide (countLogRecords data = 0%nat) then Home.NoLogsFound
       else Home.Table (Home.logs s')) /\
  Home.histogramSection formatTimestamp s'
    = Home.LogHistogram formatTimestamp (Home.logs s').
Proof.
  intros Hdata s'.
  destruct (proj1 (fetchLogs_returns data) Hdata) as [out Hout].
  assert (Hs' : s' = {| Home.logs := out; Home.loading := false;
                        Home.error := None |}).
  { unfold s', Home.loadLogs. simpl. by rewrite Hout. }
  rewrite Hs'. simpl.
  assert (Hlen : length out = countLogRecords data).
  { destruct (fetchLogs_entries _ _ Hout) as (flat & _ & _ & Hperm & Hflat).
    rewrite Hperm, <- length_sourcesOf. symmetry. by eapply Forall2_length. }
  split_and!; [done|done| |done].
  unfold Home.tableSection. simpl. rewrite <- Hlen.
  by destruct out.
Qed.

Lemma load_success_witness :
  exists rows,
    Home.tableSection (Home.loadLogs Home.initial (Some scenarioA))
    = Home.Table rows /\ length rows = 2%nat.
Proof.
  assert (Hp : timesPresent scenarioA).
  { unfold timesPresent. vm_compute. repeat constructor; eexists; reflexivity. }
  destruct (load_success noLabel Home.initial scenarioA Hp)
    as (_ & Hlen & Htable & _).
  eexists. split; [exact Htable|exact Hlen].
Defined.

(** ** Instances of the equivalences above *)

Lemma getSeverityText_unspecified_witness :
  getSeverityText (Some (JS.Finite (5 # 2))) = "UNSPECIFIED".
Proof.
  apply (proj2 (getSeverityText_unspecified (Some (JS.Finite (5 # 2))))).
  intros n Hn. apply severity_range in Hn.
  repeat (destruct Hn as [->|Hn]; [reflexivity|]). subst. reflexivity.
Defined.


Lemma fetchLogs_empty_iff_witness : fetchLogs emptyRequest = Ok [].
Proof. apply (proj2 (fetchLogs_empty_iff emptyRequest)). reflexivity. Defined.
